(** * Live tracking and estimation logic of the logistics dashboard

    Shallow embedding of
      - [src/components/shipments/ShipmentForm.jsx]
        ([previewCost], [haversine], the [distKm] / [costKsh] previews,
        [validateStep] and the three-step wizard), and
      - [src/components/shipments/TrackingMap.jsx]
        ([currentPos], [buildMap], [timeline], the two [setInterval] effects),
    together with the properties of the estimation and tracking engine.

    Numbers.  The engine computes on binary64 numbers.  [Binary64] is
    the cost estimate on them, with the rounding, the overflow and the
    signed zero of the format: what the estimator returns for given
    numbers is stated there.  [num A] is a number with exact arithmetic:
    NaN, the two infinities, or a finite value of a carrier [A].  It
    carries what rounding does not disturb: which inputs are priced at
    all, how NaN and a missing input travel, and the order of the
    estimates, over the rationals [Q]; and the great-circle distance
    over the reals [R], the results of the trigonometric functions not
    being fixed by the format.  [JS.parse_number] is the mathematical
    value of a decimal literal, which [Binary64.parse_number] rounds.

    Texts.  A text is a sequence of ASCII characters, and white space is
    the ASCII white space.

    Leaflet.  The map library is not part of the repository.  Whether a
    call into it returns or throws is a parameter of [buildMap]; an
    exception ends the run, since nothing catches it.

    Effects.  The two [useEffect] hooks of the tracking view are a state
    machine over the event loop: a clock in milliseconds, the intervals
    the view has registered, and a log of the callbacks it has run. *)

From Stdlib Require Import ZArith QArith Qround Reals Psatz Bool List.
From Stdlib Require Import Ascii String DecimalString.
From Stdlib Require Import SpecFloat.
From Stdlib Require DecimalN.
Import ListNotations.

Set Implicit Arguments.

(* ================================================================== *)
(** * The ECMAScript values the components handle *)
(* ================================================================== *)

Module JS.

(** ** Numbers *)

Inductive num (A : Type) : Type :=
| NaN : num A
| PInf : num A
| NInf : num A
| Fin (a : A) : num A.

Arguments NaN {A}.
Arguments PInf {A}.
Arguments NInf {A}.
Arguments Fin {A} a.

(** What the arithmetic needs from the carrier of the finite values. *)
Class Carrier (A : Type) : Type := {
  c_zero : A;
  c_add : A -> A -> A;
  c_opp : A -> A;
  c_mul : A -> A -> A;
  c_div : A -> A -> A;
  c_cmp : A -> A -> comparison
}.

#[export] Instance Q_carrier : Carrier Q := {
  c_zero := 0%Q;
  c_add := Qplus;
  c_opp := Qopp;
  c_mul := Qmult;
  c_div := Qdiv;
  c_cmp := Qcompare
}.

Definition Rcmp (x y : R) : comparison :=
  match total_order_T x y with
  | inleft (left _) => Lt
  | inleft (right _) => Eq
  | inright _ => Gt
  end.

#[export] Instance R_carrier : Carrier R := {
  c_zero := 0%R;
  c_add := Rplus;
  c_opp := Ropp;
  c_mul := Rmult;
  c_div := Rdiv;
  c_cmp := Rcmp
}.

Section Arith.
Context {A : Type} `{Carrier A}.

(** Sign of a number against zero; [None] for NaN. *)
Definition sign_of (x : num A) : option comparison :=
  match x with
  | NaN => None
  | PInf => Some Gt
  | NInf => Some Lt
  | Fin a => Some (c_cmp a c_zero)
  end.

Definition signed_inf (s1 s2 : comparison) : num A :=
  match s1, s2 with
  | Eq, _ | _, Eq => NaN
  | Gt, Gt | Lt, Lt => PInf
  | _, _ => NInf
  end.

(** [x + y] *)
Definition nadd (x y : num A) : num A :=
  match x, y with
  | Fin a, Fin b => Fin (c_add a b)
  | NaN, _ | _, NaN => NaN
  | PInf, NInf | NInf, PInf => NaN
  | PInf, _ | _, PInf => PInf
  | NInf, _ | _, NInf => NInf
  end.

Definition nopp (x : num A) : num A :=
  match x with
  | NaN => NaN
  | PInf => NInf
  | NInf => PInf
  | Fin a => Fin (c_opp a)
  end.

(** [x - y] *)
Definition nsub (x y : num A) : num A := nadd x (nopp y).

(** [x * y] *)
Definition nmul (x y : num A) : num A :=
  match x, y with
  | Fin a, Fin b => Fin (c_mul a b)
  | _, _ =>
      match sign_of x, sign_of y with
      | Some s1, Some s2 => signed_inf s1 s2
      | _, _ => NaN
      end
  end.

(** [x / y]; a zero divisor counts as [+0]. *)
Definition ndiv (x y : num A) : num A :=
  match x, y with
  | NaN, _ | _, NaN => NaN
  | Fin a, Fin b =>
      match c_cmp b c_zero with
      | Eq =>
          match c_cmp a c_zero with
          | Eq => NaN
          | Gt => PInf
          | Lt => NInf
          end
      | _ => Fin (c_div a b)
      end
  | Fin _, _ => Fin c_zero
  | _, Fin b =>
      match sign_of x, c_cmp b c_zero with
      | Some s, Lt => signed_inf s Lt
      | Some s, _ => signed_inf s Gt
      | None, _ => NaN
      end
  | _, _ => NaN
  end.

(** [x <= y]; any comparison with NaN is false. *)
Definition nle (x y : num A) : bool :=
  match x, y with
  | NaN, _ | _, NaN => false
  | NInf, _ | _, PInf => true
  | PInf, _ | _, NInf => false
  | Fin a, Fin b =>
      match c_cmp a b with
      | Gt => false
      | _ => true
      end
  end.

(** [x > y] *)
Definition ngt (x y : num A) : bool :=
  match x, y with
  | NaN, _ | _, NaN => false
  | _, PInf | NInf, _ => false
  | PInf, _ | _, NInf => true
  | Fin a, Fin b =>
      match c_cmp a b with
      | Gt => true
      | _ => false
      end
  end.

(** [x ** 2] *)
Definition npow2 (x : num A) : num A := nmul x x.

End Arith.

(** The same number seen in another carrier. *)
Definition num_map {A B : Type} (f : A -> B) (x : num A) : num B :=
  match x with
  | NaN => NaN
  | PInf => PInf
  | NInf => NInf
  | Fin a => Fin (f a)
  end.

Definition toR (x : num Q) : num R := num_map Q2R x.

(** A whole number as a JS number. *)
Definition int (z : Z) : num Q := Fin (inject_Z z).
Definition rint (z : Z) : num R := Fin (IZR z).

(** [Math.round]: the nearest integer, ties towards plus infinity. *)
Definition Math_round (x : num Q) : num Q :=
  match x with
  | Fin q => Fin (inject_Z (Qfloor (q + (1 # 2))%Q))
  | NaN => NaN
  | PInf => PInf
  | NInf => NInf
  end.

(** ** Values *)

Inductive value : Type :=
| VUndefined
| VNull
| VBool (b : bool)
| VNum (n : num Q)
| VStr (s : string).

(** ToBoolean *)
Definition truthy (v : value) : bool :=
  match v with
  | VUndefined | VNull => false
  | VBool b => b
  | VNum NaN => false
  | VNum (Fin q) => negb (Qnum q =? 0)%Z
  | VNum _ => true
  | VStr s => negb (String.eqb s EmptyString)
  end.

(** Strict equality with a string literal, [v === "lit"]. *)
Definition strict_eq_str (v : value) (lit : string) : bool :=
  match v with
  | VStr s => String.eqb s lit
  | _ => false
  end.

(** ** [parseFloat] *)

Definition is_space (c : ascii) : bool :=
  let n := nat_of_ascii c in
  ((9 <=? n) && (n <=? 13) || (n =? 32))%nat.

Definition is_digit (c : ascii) : bool :=
  let n := nat_of_ascii c in
  ((48 <=? n) && (n <=? 57))%nat.

Definition digit_val (c : ascii) : Z := Z.of_nat (nat_of_ascii c) - 48.

Fixpoint skip_spaces (l : list ascii) : list ascii :=
  match l with
  | c :: r => if is_space c then skip_spaces r else l
  | [] => []
  end.

(** The longest run of decimal digits at the head, and what follows it. *)
Fixpoint span_digits (l : list ascii) : list ascii * list ascii :=
  match l with
  | c :: r =>
      if is_digit c
      then let (ds, rest) := span_digits r in (c :: ds, rest)
      else ([], l)
  | [] => ([], [])
  end.

Definition digits_val (ds : list ascii) : Z :=
  fold_left (fun acc c => 10 * acc + digit_val c)%Z ds 0%Z.

Fixpoint starts_with (p l : list ascii) : bool :=
  match p, l with
  | [], _ => true
  | a :: p', b :: l' => Ascii.eqb a b && starts_with p' l'
  | _ :: _, [] => false
  end.

(** An optional sign: [true] for a minus. *)
Definition read_sign (l : list ascii) : bool * list ascii :=
  match l with
  | "-"%char :: r => (true, r)
  | "+"%char :: r => (false, r)
  | _ => (false, l)
  end.

(** The exponent part [e±ddd], read only when at least one digit follows. *)
Definition read_exponent (l : list ascii) : Z :=
  match l with
  | c :: r =>
      if Ascii.eqb c "e" || Ascii.eqb c "E" then
        let (neg, r') := read_sign r in
        let (ds, _) := span_digits r' in
        match ds with
        | [] => 0
        | _ => if neg then - digits_val ds else digits_val ds
        end
      else 0
  | [] => 0
  end%Z.

(** [m * 10^e] as a reduced fraction. *)
Definition scale10 (m e : Z) : Q :=
  Qred (if (0 <=? e)%Z then inject_Z (m * 10 ^ e)
        else Qmake m (Z.to_pos (10 ^ (- e)))).

(** The mathematical value of the longest prefix that is a decimal
    literal. *)
Definition parse_number (s : string) : num Q :=
  let l := skip_spaces (list_ascii_of_string s) in
  let (neg, l1) := read_sign l in
  if starts_with (list_ascii_of_string "Infinity") l1 then
    if neg then NInf else PInf
  else
    let (ip, l2) := span_digits l1 in
    let (fp, l3) :=
      match l2 with
      | "."%char :: r => span_digits r
      | _ => ([], l2)
      end in
    match ip ++ fp with
    | [] => NaN
    | ds =>
        let m := digits_val ds in
        let e := (read_exponent l3 - Z.of_nat (List.length fp))%Z in
        Fin (scale10 (if neg then - m else m) e)
    end.

(** [parseFloat(v)] parses [ToString(v)], here to the mathematical value
    of the literal, before any rounding.  A number prints to a literal
    that reads back as itself; [undefined], [null] and the booleans print
    to words that are no literal. *)
Definition parseFloat (v : value) : num Q :=
  match v with
  | VStr s => parse_number s
  | VNum n => n
  | VUndefined | VNull | VBool _ => NaN
  end.

(** ** Functions on real-valued numbers *)

Definition Math_PI : num R := Fin PI.

Definition Math_sin (x : num R) : num R :=
  match x with
  | Fin r => Fin (sin r)
  | _ => NaN
  end.

Definition Math_cos (x : num R) : num R :=
  match x with
  | Fin r => Fin (cos r)
  | _ => NaN
  end.

Definition Math_sqrt (x : num R) : num R :=
  match x with
  | Fin r =>
      match Rcmp r 0 with
      | Lt => NaN
      | _ => Fin (sqrt r)
      end
  | PInf => PInf
  | NInf | NaN => NaN
  end.

(** [Math.atan2(y, x)]: the angle of the point [(x, y)], in [(-PI, PI]]. *)
Definition Math_atan2 (y x : num R) : num R :=
  match y, x with
  | NaN, _ | _, NaN => NaN
  | Fin b, Fin a =>
      match Rcmp a 0, Rcmp b 0 with
      | Gt, _ => Fin (atan (b / a))
      | Lt, Lt => Fin (atan (b / a) - PI)
      | Lt, _ => Fin (atan (b / a) + PI)
      | Eq, Gt => Fin (PI / 2)
      | Eq, Lt => Fin (- PI / 2)
      | Eq, Eq => Fin 0
      end%R
  | Fin b, PInf => Fin 0%R
  | Fin b, NInf =>
      match Rcmp b 0 with
      | Lt => Fin (- PI)
      | _ => Fin PI
      end%R
  | PInf, Fin _ => Fin (PI / 2)%R
  | NInf, Fin _ => Fin (- PI / 2)%R
  | PInf, PInf => Fin (PI / 4)%R
  | PInf, NInf => Fin (3 * PI / 4)%R
  | NInf, PInf => Fin (- PI / 4)%R
  | NInf, NInf => Fin (- 3 * PI / 4)%R
  end.

(** ** [Number.prototype.toFixed(2)] *)

Definition decimal_of_Z (n : Z) : string :=
  NilZero.string_of_uint (N.to_uint (Z.to_N n)).

(** The digits of [n] hundredths: at least three digits, a point before
    the last two. *)
Definition hundredths (n : Z) : string :=
  (decimal_of_Z (n / 100) ++ "." ++
   decimal_of_Z ((n mod 100) / 10) ++ decimal_of_Z (n mod 10))%string.

(** [x.toFixed(2)].  The integer [n] with [n / 100] nearest to [|x|] is
    [floor (|x| * 100 + 1/2)], the larger one on a tie.  The switch to
    exponent notation at [1e21] is left out: no distance on the globe
    gets near it. *)
Definition toFixed2 (x : num R) : string :=
  match x with
  | NaN => "NaN"
  | PInf => "Infinity"
  | NInf => "-Infinity"
  | Fin r =>
      match Rcmp r 0 with
      | Lt => ("-" ++ hundredths (Int_part (- r * 100 + / 2)))%string
      | _ => hundredths (Int_part (r * 100 + / 2))
      end
  end.

End JS.

(* ================================================================== *)
(** * ShipmentForm.jsx: the creation-time previews *)
(* ================================================================== *)

Module ShipmentForm.
Import JS.

(** The tiered distance cost, the [let distCost] of [previewCost]. *)
Definition distCost (d : num Q) : num Q :=
  if nle d (int 10) then nmul d (int 50)
  else if nle d (int 50) then nadd (int 500) (nmul (nsub d (int 10)) (int 40))
  else nadd (nadd (int 500) (int 1600)) (nmul (nsub d (int 50)) (int 30)).

(** The weight surcharge, the [const surcharge] of [previewCost]. *)
Definition surcharge (w : num Q) : num Q :=
  if ngt w (int 20) then nmul (ndiv (nsub w (int 20)) (int 10)) (int 20)
  else int 0.

(** [function previewCost(distKm, weightKg)], with exact arithmetic;
    [Binary64.previewCost] is the function on binary64 numbers. *)
Definition previewCost (distKm weightKg : value) : value :=
  if negb (truthy distKm) || negb (truthy weightKg) then VNull
  else
    let d := parseFloat distKm in
    let w := parseFloat weightKg in
    VNum (Math_round (nadd (nadd (int 200) (distCost d)) (surcharge w))).

(** [function haversine(lat1, lon1, lat2, lon2)], over the reals *)
Definition haversine (lat1 lon1 lat2 lon2 : num R) : num R :=
  let R := rint 6371 in
  let dL := ndiv (nmul (nsub lat2 lat1) Math_PI) (rint 180) in
  let dN := ndiv (nmul (nsub lon2 lon1) Math_PI) (rint 180) in
  let a :=
    nadd (npow2 (Math_sin (ndiv dL (rint 2))))
         (nmul (nmul (Math_cos (ndiv (nmul lat1 Math_PI) (rint 180)))
                     (Math_cos (ndiv (nmul lat2 Math_PI) (rint 180))))
               (npow2 (Math_sin (ndiv dN (rint 2))))) in
  nmul (nmul R (rint 2))
       (Math_atan2 (Math_sqrt a) (Math_sqrt (nsub (rint 1) a))).

(** The form state: every field is the text of an input. *)
Record form : Type := {
  origin_address : string;
  origin_latitude : string;
  origin_longitude : string;
  destination_address : string;
  destination_latitude : string;
  destination_longitude : string;
  recipient_name : string;
  recipient_phone : string;
  package_description : string;
  weight_kg : string;
  volume_m3 : string
}.

Definition BLANK : form := {|
  origin_address := EmptyString;
  origin_latitude := EmptyString;
  origin_longitude := EmptyString;
  destination_address := EmptyString;
  destination_latitude := EmptyString;
  destination_longitude := EmptyString;
  recipient_name := EmptyString;
  recipient_phone := EmptyString;
  package_description := EmptyString;
  weight_kg := EmptyString;
  volume_m3 := EmptyString
|}.

(** [const distKm = (form.origin_latitude && form.destination_latitude)
      ? haversine(parseFloat(...), ...).toFixed(2) : null] *)
Definition distKm (f : form) : value :=
  if truthy (VStr (origin_latitude f)) && truthy (VStr (destination_latitude f))
  then
    VStr (toFixed2
            (haversine
               (toR (parseFloat (VStr (origin_latitude f))))
               (toR (parseFloat (VStr (origin_longitude f))))
               (toR (parseFloat (VStr (destination_latitude f))))
               (toR (parseFloat (VStr (destination_longitude f))))))
  else VNull.

(** [const costKsh = distKm && form.weight_kg
      ? previewCost(distKm, form.weight_kg) : null] *)
Definition costKsh (f : form) : value :=
  if truthy (distKm f) && truthy (VStr (weight_kg f))
  then previewCost (distKm f) (VStr (weight_kg f))
  else VNull.

(** What the render puts on screen on wizard step [step]: the distance
    line of step 2, [{distKm && (...)}], and the cost card of step 3,
    [{costKsh ? (...) : (...)}]. *)
Definition shows_distance (step : nat) (f : form) : bool :=
  (step =? 2)%nat && truthy (distKm f).

Definition shows_cost (step : nat) (f : form) : bool :=
  (step =? 3)%nat && truthy (costKsh f).

End ShipmentForm.

(* ================================================================== *)
(** * ShipmentForm.jsx: the cost estimate in binary64 *)
(* ================================================================== *)

(** The engine computes on binary64 numbers.  This module is
    [previewCost] on them: a number is a [spec_float] of the Standard
    Library with 53 bits of precision, every operation rounds to the
    nearest number, ties to even, and overflows to an infinity. *)
Module Binary64.
Import JS.

Definition prec : Z := 53.
Definition emax : Z := 1024.

Definition double : Type := spec_float.


Definition fadd : double -> double -> double := SFadd prec emax.
Definition fsub : double -> double -> double := SFsub prec emax.
Definition fmul : double -> double -> double := SFmul prec emax.
Definition fdiv : double -> double -> double := SFdiv prec emax.

(** [x <= y] and [x < y]; any comparison with NaN is false. *)
Definition fle : double -> double -> bool := SFleb.
Definition flt : double -> double -> bool := SFltb.

(** A whole number as a binary64 number. *)
Definition of_Z (z : Z) : double := binary_normalize prec emax z 0 false.

(** The Number value of a rational: the nearest binary64 number. *)
Definition of_Q (q : Q) : double :=
  match Qnum q with
  | Z0 => S754_zero false
  | Zpos n => fdiv (S754_finite false n 0) (S754_finite false (Qden q) 0)
  | Zneg n => fdiv (S754_finite true n 0) (S754_finite false (Qden q) 0)
  end.

Definition of_num (x : num Q) : double :=
  match x with
  | NaN => S754_nan
  | PInf => S754_infinity false
  | NInf => S754_infinity true
  | Fin q => of_Q q
  end.

(** [Math.round]: a number that is not finite or is integral is
    returned as it is; otherwise the nearest integer, ties towards plus
    infinity, and a zero that keeps the sign of the argument. *)
Definition Math_round (x : double) : double :=
  match x with
  | S754_finite s m e =>
      if (0 <=? e)%Z then x
      else
        binary_normalize prec emax
          (Z.shiftr (2 * (if s then Z.neg m else Z.pos m) + 2 ^ (- e)) (1 - e))
          0 s
  | _ => x
  end.

Inductive value : Type :=
| VUndefined
| VNull
| VBool (b : bool)
| VNum (x : double)
| VStr (s : string).

(** ToBoolean *)
Definition truthy (v : value) : bool :=
  match v with
  | VUndefined | VNull => false
  | VBool b => b
  | VNum (S754_zero _) | VNum S754_nan => false
  | VNum _ => true
  | VStr s => negb (String.eqb s EmptyString)
  end.

(** Does the literal at the head of the text carry a minus sign? *)
Definition minus_sign (s : string) : bool :=
  fst (read_sign (skip_spaces (list_ascii_of_string s))).

(** The Number value of the longest prefix that is a decimal literal:
    the nearest binary64 number to its mathematical value
    [JS.parse_number]; a zero keeps the sign of the literal. *)
Definition parse_number (s : string) : double :=
  match of_num (JS.parse_number s) with
  | S754_zero _ => S754_zero (minus_sign s)
  | x => x
  end.

(** [parseFloat(v)] parses [ToString(v)].  A number prints to the
    shortest literal that reads back as itself, either zero to ["0"]. *)
Definition parseFloat (v : value) : double :=
  match v with
  | VStr s => parse_number s
  | VNum (S754_zero _) => S754_zero false
  | VNum x => x
  | VUndefined | VNull | VBool _ => S754_nan
  end.

(** The tiered distance cost, the [let distCost] of [previewCost]. *)
Definition distCost (d : double) : double :=
  if fle d (of_Z 10) then fmul d (of_Z 50)
  else if fle d (of_Z 50)
       then fadd (of_Z 500) (fmul (fsub d (of_Z 10)) (of_Z 40))
       else fadd (fadd (of_Z 500) (of_Z 1600)) (fmul (fsub d (of_Z 50)) (of_Z 30)).

(** The weight surcharge, the [const surcharge] of [previewCost]. *)
Definition surcharge (w : double) : double :=
  if flt (of_Z 20) w
  then fmul (fdiv (fsub w (of_Z 20)) (of_Z 10)) (of_Z 20)
  else of_Z 0.

(** [function previewCost(distKm, weightKg)] *)
Definition previewCost (distKm weightKg : value) : value :=
  if negb (truthy distKm) || negb (truthy weightKg) then VNull
  else
    let d := parseFloat distKm in
    let w := parseFloat weightKg in
    VNum (Math_round (fadd (fadd (of_Z 200) (distCost d)) (surcharge w))).

End Binary64.

(* ================================================================== *)
(** * ShipmentForm.jsx: validation and the three-step wizard *)
(* ================================================================== *)

Module ShipmentWizard.
Import JS ShipmentForm.

Local Open Scope string_scope.
Local Open Scope list_scope.

(** ** What the validation calls *)

(** [!s.trim()]: nothing is left once the white space is trimmed. *)
Definition blank (s : string) : bool :=
  forallb is_space (list_ascii_of_string s).

(** [/^\+?[\d\s\-]{9,15}$/.test(s)] *)
Definition phone_char (c : ascii) : bool :=
  is_digit c || is_space c || Ascii.eqb c "-".

Definition phone_ok (s : string) : bool :=
  let l := list_ascii_of_string s in
  let body := match l with
              | "+"%char :: r => r
              | _ => l
              end in
  (9 <=? List.length body)%nat && (List.length body <=? 15)%nat
  && forallb phone_char body.

(** ToNumber of a text: unlike [parseFloat] the whole text, trimmed at
    both ends, has to be a numeric literal; the empty text counts as 0. *)
Definition trim (l : list ascii) : list ascii :=
  rev (skip_spaces (rev (skip_spaces l))).

Definition radix_digit (c : ascii) : option Z :=
  let n := nat_of_ascii c in
  if ((48 <=? n) && (n <=? 57))%nat then Some (Z.of_nat n - 48)%Z
  else if ((97 <=? n) && (n <=? 102))%nat then Some (Z.of_nat n - 87)%Z
  else if ((65 <=? n) && (n <=? 70))%nat then Some (Z.of_nat n - 55)%Z
  else None.

Fixpoint radix_val (radix : Z) (l : list ascii) (acc : Z) : option Z :=
  match l with
  | [] => Some acc
  | c :: r =>
      match radix_digit c with
      | Some d => if (d <? radix)%Z then radix_val radix r (acc * radix + d)%Z
                  else None
      | None => None
      end
  end.

Definition radix_of (c : ascii) : option Z :=
  if Ascii.eqb c "x" || Ascii.eqb c "X" then Some 16%Z
  else if Ascii.eqb c "o" || Ascii.eqb c "O" then Some 8%Z
  else if Ascii.eqb c "b" || Ascii.eqb c "B" then Some 2%Z
  else None.

(** The exponent part and what follows it. *)
Definition exponent_rest (l : list ascii) : Z * list ascii :=
  match l with
  | c :: r =>
      if Ascii.eqb c "e" || Ascii.eqb c "E" then
        let (neg, r') := read_sign r in
        let (ds, rest) := span_digits r' in
        match ds with
        | [] => (0%Z, l)
        | _ => ((if neg then - digits_val ds else digits_val ds)%Z, rest)
        end
      else (0%Z, l)
  | [] => (0%Z, [])
  end.

(** A signed decimal literal that is the whole of [l]. *)
Definition decimal_literal (l : list ascii) : num Q :=
  let (neg, l1) := read_sign l in
  if String.eqb (string_of_list_ascii l1) "Infinity" then
    if neg then NInf else PInf
  else
    let (ip, l2) := span_digits l1 in
    let (fp, l3) :=
      match l2 with
      | "."%char :: r => span_digits r
      | _ => ([], l2)
      end in
    match ip ++ fp with
    | [] => NaN
    | ds =>
        let (e, rest) := exponent_rest l3 in
        match rest with
        | [] =>
            let m := digits_val ds in
            Fin (scale10 (if neg then - m else m)
                         (e - Z.of_nat (List.length fp)))
        | _ => NaN
        end
    end.

Definition string_to_number (s : string) : num Q :=
  match trim (list_ascii_of_string s) with
  | [] => Fin 0
  | "0"%char :: c :: ds =>
      match radix_of c with
      | Some radix =>
          match ds with
          | [] => NaN
          | _ => match radix_val radix ds 0 with
                 | Some v => Fin (inject_Z v)
                 | None => NaN
                 end
          end
      | None => decimal_literal ("0"%char :: c :: ds)
      end
  | l => decimal_literal l
  end.

Definition to_number (v : value) : num Q :=
  match v with
  | VUndefined => NaN
  | VNull => Fin 0
  | VBool b => if b then Fin 1 else Fin 0
  | VNum n => n
  | VStr s => string_to_number s
  end.

(** The global [isNaN(v)] *)
Definition isNaN (v : value) : bool :=
  match to_number v with
  | NaN => true
  | _ => false
  end.

(** ** [validateStep] *)

(** The error object: keys with their messages, in the order set. *)
Definition errors_t : Type := list (string * string).

(** [function validateStep(step, form)] *)
Definition validateStep (step : nat) (f : form) : errors_t :=
  (if (step =? 1)%nat then
     (if blank (origin_address f)
      then [("origin_address", "Pickup address is required")] else [])
     ++ (if negb (truthy (VStr (origin_latitude f)))
            || negb (truthy (VStr (origin_longitude f)))
         then [("origin_coords", "Select a pickup location on the map")]
         else [])
   else [])
  ++ (if (step =? 2)%nat then
        (if blank (destination_address f)
         then [("destination_address", "Delivery address is required")] else [])
        ++ (if negb (truthy (VStr (destination_latitude f)))
               || negb (truthy (VStr (destination_longitude f)))
            then [("destination_coords", "Select a delivery location on the map")]
            else [])
        ++ (if blank (recipient_name f)
            then [("recipient_name", "Recipient name is required")] else [])
        ++ (if blank (recipient_phone f)
            then [("recipient_phone", "Recipient phone is required")]
            else if negb (phone_ok (recipient_phone f))
            then [("recipient_phone", "Enter a valid phone number")]
            else [])
      else [])
  ++ (if (step =? 3)%nat then
        (if negb (truthy (VStr (weight_kg f))) || isNaN (VStr (weight_kg f))
         then [("weight_kg", "Weight is required")]
         else if nle (parseFloat (VStr (weight_kg f))) (int 0)
         then [("weight_kg", "Weight must be greater than 0")]
         else if ngt (parseFloat (VStr (weight_kg f))) (int 10000)
         then [("weight_kg", "Maximum weight is 10,000 kg")]
         else [])
      else []).

(** ** The wizard *)

Inductive field : Type :=
| Origin_address | Origin_latitude | Origin_longitude
| Destination_address | Destination_latitude | Destination_longitude
| Recipient_name | Recipient_phone
| Package_description | Weight_kg | Volume_m3.

(** The key of a field in [form] and in [errors]. *)
Definition field_key (k : field) : string :=
  match k with
  | Origin_address => "origin_address"
  | Origin_latitude => "origin_latitude"
  | Origin_longitude => "origin_longitude"
  | Destination_address => "destination_address"
  | Destination_latitude => "destination_latitude"
  | Destination_longitude => "destination_longitude"
  | Recipient_name => "recipient_name"
  | Recipient_phone => "recipient_phone"
  | Package_description => "package_description"
  | Weight_kg => "weight_kg"
  | Volume_m3 => "volume_m3"
  end.

(** [{ ...prev, [key]: value }] *)
Definition set_field (k : field) (v : string) (f : form) : form :=
  {| origin_address := match k with Origin_address => v | _ => origin_address f end;
     origin_latitude := match k with Origin_latitude => v | _ => origin_latitude f end;
     origin_longitude := match k with Origin_longitude => v | _ => origin_longitude f end;
     destination_address :=
       match k with Destination_address => v | _ => destination_address f end;
     destination_latitude :=
       match k with Destination_latitude => v | _ => destination_latitude f end;
     destination_longitude :=
       match k with Destination_longitude => v | _ => destination_longitude f end;
     recipient_name := match k with Recipient_name => v | _ => recipient_name f end;
     recipient_phone := match k with Recipient_phone => v | _ => recipient_phone f end;
     package_description :=
       match k with Package_description => v | _ => package_description f end;
     weight_kg := match k with Weight_kg => v | _ => weight_kg f end;
     volume_m3 := match k with Volume_m3 => v | _ => volume_m3 f end |}.

(** [delete e[key]] *)
Definition delete_key (key : string) (e : errors_t) : errors_t :=
  filter (fun kv => negb (String.eqb (fst kv) key)) e.

(** What [onSubmit] receives: [{ ...form, weight_kg: parseFloat(...),
    volume_m3: form.volume_m3 ? parseFloat(...) : null }].  The two
    computed entries replace the texts of the same keys in [data]. *)
Record payload : Type := {
  data : form;
  weight : num Q;
  volume : value
}.

(** The component state, and the calls made to [onSubmit] so far. *)
Record wizard : Type := {
  step : nat;
  fields : form;
  errors : errors_t;
  sent : list payload
}.

Definition start : wizard :=
  {| step := 1; fields := BLANK; errors := []; sent := [] |}.

(** [const set = (key, value) => { setForm(...); if (errors[key])
    setErrors(prev => { const e = {...prev}; delete e[key]; return e; }) }] *)
Definition set (k : field) (v : string) (w : wizard) : wizard :=
  {| step := step w;
     fields := set_field k v (fields w);
     errors := delete_key (field_key k) (errors w);
     sent := sent w |}.

(** [goNext] *)
Definition goNext (w : wizard) : wizard :=
  match validateStep (step w) (fields w) with
  | [] => {| step := step w + 1; fields := fields w; errors := []; sent := sent w |}
  | errs => {| step := step w; fields := fields w; errors := errs; sent := sent w |}
  end.

(** [goBack] *)
Definition goBack (w : wizard) : wizard :=
  {| step := step w - 1; fields := fields w; errors := []; sent := sent w |}.

(** [handleSubmit] *)
Definition handleSubmit (w : wizard) : wizard :=
  match validateStep 3 (fields w) with
  | [] =>
      {| step := step w; fields := fields w; errors := errors w;
         sent := sent w ++
                 [{| data := fields w;
                     weight := parseFloat (VStr (weight_kg (fields w)));
                     volume := if truthy (VStr (volume_m3 (fields w)))
                               then VNum (parseFloat (VStr (volume_m3 (fields w))))
                               else VNull |}] |}
  | errs => {| step := step w; fields := fields w; errors := errs; sent := sent w |}
  end.

(** The [MapPicker] rendered on the step: the pickup pair on step 1, the
    delivery pair on step 2. *)
Definition picker (w : wizard) : option (field * field) :=
  if (step w =? 1)%nat then Some (Origin_latitude, Origin_longitude)
  else if (step w =? 2)%nat then Some (Destination_latitude, Destination_longitude)
  else None.

Definition get_field (k : field) (f : form) : string :=
  match k with
  | Origin_address => origin_address f
  | Origin_latitude => origin_latitude f
  | Origin_longitude => origin_longitude f
  | Destination_address => destination_address f
  | Destination_latitude => destination_latitude f
  | Destination_longitude => destination_longitude f
  | Recipient_name => recipient_name f
  | Recipient_phone => recipient_phone f
  | Package_description => package_description f
  | Weight_kg => weight_kg f
  | Volume_m3 => volume_m3 f
  end.

(** [onPick(lat, lng)] of that picker: [set(latKey, lat); set(lngKey, lng)] *)
Definition onPick (lat lng : string) (w : wizard) : wizard :=
  match picker w with
  | Some (klat, klng) => set klng lng (set klat lat w)
  | None => w
  end.

(** [const ready = lat && lng] of that picker *)
Definition ready (w : wizard) : bool :=
  match picker w with
  | Some (klat, klng) =>
      truthy (VStr (get_field klat (fields w)))
      && truthy (VStr (get_field klng (fields w)))
  | None => false
  end.

(** The text inputs rendered on a step. *)
Definition typed_on (k : field) : nat :=
  match k with
  | Origin_address => 1
  | Destination_address | Recipient_name | Recipient_phone => 2
  | Package_description | Weight_kg | Volume_m3 => 3
  | _ => 0
  end.

(** What the user can do; a control that is not rendered does nothing. *)
Inductive event : Type :=
| Type_in (k : field) (v : string)   (* [onChange] of an [Input] or [Textarea] *)
| Pick_lat (v : string)              (* the latitude input of the picker *)
| Pick_lng (v : string)              (* the longitude input of the picker *)
| Clear_pin                          (* "Clear pin", shown when [ready] *)
| Next                               (* shown while [step < 3] *)
| Back                               (* shown unless [step === 1] *)
| Submit.                            (* shown from step 3 on *)

Definition handle (w : wizard) (e : event) : wizard :=
  match e with
  | Type_in k v => if (typed_on k =? step w)%nat then set k v w else w
  | Pick_lat v =>
      match picker w with
      | Some (_, klng) => onPick v (get_field klng (fields w)) w
      | None => w
      end
  | Pick_lng v =>
      match picker w with
      | Some (klat, _) => onPick (get_field klat (fields w)) v w
      | None => w
      end
  | Clear_pin => if ready w then onPick EmptyString EmptyString w else w
  | Next => if (step w <? 3)%nat then goNext w else w
  | Back => if (step w =? 1)%nat then w else goBack w
  | Submit => if (step w <? 3)%nat then w else handleSubmit w
  end.

Definition play (w : wizard) (es : list event) : wizard := fold_left handle es w.

(** ** [StepDots] *)

(** The three fillings of a dot: the active one, a finished one, and one
    still to come. *)
Inductive dot_look : Type := Blue | Green | Gray.

(** One rendered dot: its filling, what it shows (the check mark, or its
    number), and the bar that follows it, with whether that bar is
    coloured; the last dot has no bar. *)
Record dot : Type := {
  look : dot_look;
  number : option nat;
  bar : option bool
}.

(** [function StepDots({ current })]: [steps.map((label, i) => ...)] over
    the three labels. *)
Definition StepDots (current : nat) : list dot :=
  map (fun i =>
         let n := (i + 1)%nat in
         let done := (n <? current)%nat in
         let active := (n =? current)%nat in
         {| look := if active then Blue else if done then Green else Gray;
            number := if done then None else Some n;
            bar := if (i <? 3 - 1)%nat then Some done else None |})
      (seq 0 3).

End ShipmentWizard.

(* ================================================================== *)
(** * TrackingMap.jsx: position, map primitives, timeline, timers *)
(* ================================================================== *)

Module TrackingMap.
Import JS.

(** ** The tracking data *)

(** A location object of the backend response: [origin] and
    [destination] carry [lat], [lng], [address]; a route sample and
    [current_location] carry [lat], [lng], [timestamp], [speed].  A
    property the object does not have reads as [VUndefined]. *)
Record place : Type := {
  lat : value;
  lng : value;
  address : value;
  timestamp : value;
  speed : value
}.

Record tracking : Type := {
  shipment_id : value;
  tracking_number : value;
  status : value;
  origin : option place;
  destination : option place;
  route : option (list place);
  current_location : option place;
  created_at : value;
  assigned_at : value;
  picked_up_at : value;
  delivered_at : value
}.

(** Optional chaining [o?.f]. *)
Definition chain {A : Type} (f : A -> value) (o : option A) : value :=
  match o with
  | Some x => f x
  | None => VUndefined
  end.

(** ** The current position *)

(** [const currentPos = current_location ||
      (route?.length ? route[route.length - 1] : null)] *)
Definition currentPos (td : tracking) : option place :=
  match current_location td with
  | Some c => Some c
  | None =>
      match route td with
      | Some r =>
          if (0 <? List.length r)%nat then nth_error r (List.length r - 1)
          else None
      | None => None
      end
  end.

(** ** What [buildMap] hands to Leaflet *)

Definition latlng : Type := (value * value)%type.

Inductive marker_kind : Type := Pickup | Delivery | Truck.
Inductive line_kind : Type := Direct | Travelled.

Inductive prim : Type :=
| MapInit (center : latlng) (zoom : Z)
| TileLayer
| Marker (k : marker_kind) (pos : latlng)
| Polyline (k : line_kind) (pts : list latlng)
| FitBounds (pts : list latlng).

Definition coords (p : place) : latlng := (lat p, lng p).

(** *** Leaflet

    Leaflet is not part of the repository.  A call into it returns or
    throws, depending on its arguments, and which of the two is a
    parameter of the embedding: [L c = true] when the call [c] returns.
    An exception leaves [buildMap] at once, since nothing catches it:
    the calls after it are never made. *)
Definition leaflet : Type := prim -> bool.

(** The positions a call hands to Leaflet. *)
Definition positions (c : prim) : list latlng :=
  match c with
  | MapInit center _ => [center]
  | TileLayer => []
  | Marker _ pos => [pos]
  | Polyline _ pts => pts
  | FitBounds pts => pts
  end.

(** A Leaflet that throws what the constructor of its [LatLng] throws,
    ["Invalid LatLng object"] when [isNaN(lat) || isNaN(lng)], and
    nothing else. *)
Definition LatLng_checked : leaflet :=
  fun c =>
    forallb (fun p => negb (ShipmentWizard.isNaN (fst p))
                      && negb (ShipmentWizard.isNaN (snd p)))
            (positions c).

(** [typeof v === "number"] *)
Definition is_number (v : value) : bool :=
  match v with
  | VNum _ => true
  | _ => false
  end.

(** The popup text of the live marker,
    [${currentPos.speed ? `Speed: ${currentPos.speed.toFixed(0)} ...` : ""}]:
    a truthy speed that is not a number has no [toFixed], and calling it
    throws a TypeError. *)
Definition popup_throws (c : place) : bool :=
  truthy (speed c) && negb (is_number (speed c)).

(** What [buildMap] does once it is past its guards, in the order of the
    source: a call into Leaflet, or the evaluation of the live marker's
    popup text. *)
Inductive op : Type :=
| Call (c : prim)
| Popup (p : place).

Definition script (td : tracking) (o d : place) : list op :=
  [ Call (MapInit (coords o) 13);
    Call TileLayer;
    Call (Marker Pickup (coords o));
    Call (Marker Delivery (coords d));
    Call (Polyline Direct [coords o; coords d]) ]
  ++ match route td with
     | Some pts =>
         if (2 <=? List.length pts)%nat
         then [Call (Polyline Travelled (map coords pts))]
         else []
     | None => []
     end
  ++ match currentPos td with
     | Some c => [Call (Marker Truck (coords c)); Popup c]
     | None => []
     end
  ++ [ Call (FitBounds
               (coords o :: coords d ::
                map coords (match route td with Some pts => pts | None => [] end))) ].

(** A run of [buildMap]: the Leaflet calls that returned, in order, and
    whether an exception ended it. *)
Record drawing : Type := {
  calls : list prim;
  threw : bool
}.

Fixpoint draw (L : leaflet) (ops : list op) : drawing :=
  match ops with
  | [] => {| calls := []; threw := false |}
  | Call c :: rest =>
      if L c
      then let r := draw L rest in {| calls := c :: calls r; threw := threw r |}
      else {| calls := []; threw := true |}
  | Popup p :: rest =>
      if popup_throws p then {| calls := []; threw := true |}
      else draw L rest
  end.

(** The Leaflet calls of a script. *)
Definition planned (ops : list op) : list prim :=
  flat_map (fun o => match o with Call c => [c] | Popup _ => [] end) ops.

(** [buildMap]: [None] when it returns before touching the map,
    otherwise its run.  [mapDiv] tells whether [mapDivRef.current] is
    set. *)
Definition buildMap (L : leaflet) (mapDiv : bool) (trackingData : option tracking)
  : option drawing :=
  match trackingData with
  | None => None
  | Some td =>
      if negb mapDiv then None
      else if negb (truthy (chain lat (origin td)))
              || negb (truthy (chain lat (destination td))) then None
      else
        match origin td, destination td with
        | Some o, Some d => Some (draw L (script td o d))
        | _, _ => None
        end
  end.

(** ** The delivery timeline *)

Record step : Type := {
  label : string;
  time : value;
  done : bool;
  active : bool
}.

(** [const timeline = [ {label, time, done: !!time, active: status === ...}, ... ]]
    with [status] read from [trackingData || {}]. *)
Definition timeline (trackingData : option tracking) : list step :=
  let status := chain status trackingData in
  [ {| label := "Created";
       time := chain created_at trackingData;
       done := truthy (chain created_at trackingData);
       active := strict_eq_str status "pending" |};
    {| label := "Assigned";
       time := chain assigned_at trackingData;
       done := truthy (chain assigned_at trackingData);
       active := strict_eq_str status "assigned" |};
    {| label := "Transit";
       time := chain picked_up_at trackingData;
       done := truthy (chain picked_up_at trackingData);
       active := strict_eq_str status "in_transit" |};
    {| label := "Delivered";
       time := chain delivered_at trackingData;
       done := truthy (chain delivered_at trackingData);
       active := false |} ].

(** ** The two interval effects

    The component runs on the single-threaded event loop.  The model
    keeps the loop's clock in milliseconds and the intervals this view
    has registered; a callback runs when its interval falls due.  The
    log records every callback the view runs. *)

(** The identity of a function passed as [onRefresh]. *)
Definition handler : Type := N.

Record props : Type := {
  autoRefresh : bool;
  onRefresh : option handler
}.

(** What an interval of this view runs. *)
Inductive callback : Type :=
| TickerCb                          (* [setTicker(...)] *)
| RefreshCb (h : handler).          (* [onRefresh(); lastRefreshRef.current = new Date()] *)

Record timer : Type := {
  tid : N;
  period : N;
  due : N;
  cb : callback
}.

Inductive event : Type :=
| TickerFired (t : N)
| RefreshTick (h : handler) (t : N)
| ManualRefresh (h : handler) (t : N).

Record view : Type := {
  now : N;                          (* [Date.now()] *)
  next_id : N;
  timers : list timer;
  mounted : bool;
  cur : props;                      (* the props of the last render *)
  ticker : N;                       (* [useState(0)] *)
  lastRefreshRef : N;               (* [useRef(new Date())] *)
  ticker_cleanup : option N;        (* the [id] the first effect's cleanup clears *)
  refresh_cleanup : option N;       (* the [id] the second effect's cleanup clears *)
  log : list event
}.

(** Field updates. *)
Definition set_timers (nid : N) (ts : list timer) (v : view) : view :=
  {| now := now v; next_id := nid; timers := ts; mounted := mounted v;
     cur := cur v; ticker := ticker v; lastRefreshRef := lastRefreshRef v;
     ticker_cleanup := ticker_cleanup v;
     refresh_cleanup := refresh_cleanup v; log := log v |}.

Definition set_hooks (m : bool) (p : props) (c1 c2 : option N) (v : view) : view :=
  {| now := now v; next_id := next_id v; timers := timers v; mounted := m;
     cur := p; ticker := ticker v; lastRefreshRef := lastRefreshRef v;
     ticker_cleanup := c1; refresh_cleanup := c2; log := log v |}.

Definition set_display (k r : N) (l : list event) (v : view) : view :=
  {| now := now v; next_id := next_id v; timers := timers v;
     mounted := mounted v; cur := cur v; ticker := k; lastRefreshRef := r;
     ticker_cleanup := ticker_cleanup v;
     refresh_cleanup := refresh_cleanup v; log := l |}.

Definition set_now (t : N) (v : view) : view :=
  {| now := t; next_id := next_id v; timers := timers v;
     mounted := mounted v; cur := cur v; ticker := ticker v;
     lastRefreshRef := lastRefreshRef v;
     ticker_cleanup := ticker_cleanup v;
     refresh_cleanup := refresh_cleanup v; log := log v |}.

(** [setInterval(c, ms)]: a fresh id, first due one period from now. *)
Definition setInterval (c : callback) (ms : N) (v : view) : N * view :=
  (next_id v,
   set_timers (N.succ (next_id v))
     (timers v ++
      [{| tid := next_id v; period := ms; due := now v + ms; cb := c |}]) v)%N.

(** [clearInterval(id)] *)
Definition clearInterval (id : N) (v : view) : view :=
  set_timers (next_id v)
    (filter (fun tm => negb (tid tm =? id)%N) (timers v)) v.

(** Running the cleanup an effect returned, if it returned one. *)
Definition cleanup (c : option N) (v : view) : view :=
  match c with
  | Some id => clearInterval id v
  | None => v
  end.

(** The first effect, [useEffect(() => { const id = setInterval(...,
    1000); return () => clearInterval(id); }, [])]. *)
Definition ticker_effect (v : view) : view :=
  let (id, v') := setInterval TickerCb 1000 v in
  set_hooks (mounted v') (cur v') (Some id) (refresh_cleanup v') v'.

(** The second effect, [useEffect(() => { if (!autoRefresh ||
    !onRefresh) return; const id = setInterval(..., 30000); return () =>
    clearInterval(id); }, [autoRefresh, onRefresh])], run for props [p]. *)
Definition refresh_effect (p : props) (v : view) : view :=
  match autoRefresh p, onRefresh p with
  | true, Some h =>
      let (id, v') := setInterval (RefreshCb h) 30000 v in
      set_hooks (mounted v') p (ticker_cleanup v') (Some id) v'
  | _, _ => set_hooks (mounted v) p (ticker_cleanup v) None v
  end.

(** The first render at clock [t0], followed by both effects. *)
Definition mount (p : props) (t0 : N) : view :=
  refresh_effect p
    (ticker_effect
       {| now := t0; next_id := 1; timers := []; mounted := true; cur := p;
          ticker := 0; lastRefreshRef := t0;
          ticker_cleanup := None; refresh_cleanup := None; log := [] |}).

(** Do the dependencies [[autoRefresh, onRefresh]] differ? *)
Definition deps_changed (p q : props) : bool :=
  negb (Bool.eqb (autoRefresh p) (autoRefresh q))
  || match onRefresh p, onRefresh q with
     | Some a, Some b => negb (a =? b)%N
     | None, None => false
     | _, _ => true
     end.

(** A render with new props: the second effect is cleaned up and run
    again when its dependencies changed; the first has none and stays. *)
Definition rerender (p : props) (v : view) : view :=
  if negb (mounted v) then v
  else if deps_changed (cur v) p
       then refresh_effect p (cleanup (refresh_cleanup v) v)
       else v.

(** Teardown: every effect's cleanup runs. *)
Definition unmount (v : view) : view :=
  if negb (mounted v) then v
  else
    let v1 := cleanup (ticker_cleanup v) v in
    let v2 := cleanup (refresh_cleanup v1) v1 in
    set_hooks false (cur v2) None None v2.

(** The refresh button, rendered only when [onRefresh] is given:
    [onClick={() => { onRefresh(); lastRefreshRef.current = new Date(); }}] *)
Definition click_refresh (v : view) : view :=
  match mounted v, onRefresh (cur v) with
  | true, Some h =>
      set_display (ticker v) (now v) (log v ++ [ManualRefresh h (now v)]) v
  | _, _ => v
  end.

(** Running a callback at the current clock. *)
Definition fire (c : callback) (v : view) : view :=
  match c with
  | TickerCb =>
      set_display ((now v - lastRefreshRef v) / 1000)%N (lastRefreshRef v)
        (log v ++ [TickerFired (now v)]) v
  | RefreshCb h =>
      set_display (ticker v) (now v) (log v ++ [RefreshTick h (now v)]) v
  end.

Definition reschedule (t : N) (tm : timer) : timer :=
  if (due tm =? t)%N
  then {| tid := tid tm; period := period tm; due := t + period tm; cb := cb tm |}%N
  else tm.

(** One millisecond passes: the intervals due at the new clock run, in
    the order they were registered, and are scheduled again. *)
Definition tick (v : view) : view :=
  let t := (now v + 1)%N in
  let due_now := filter (fun tm => (due tm =? t)%N) (timers v) in
  let v1 := set_timers (next_id v) (map (reschedule t) (timers v)) (set_now t v) in
  fold_left (fun st tm => fire (cb tm) st) due_now v1.

Definition elapse (ms : N) (v : view) : view := N.iter ms tick v.

(** What can happen to a mounted view. *)
Inductive action : Type :=
| Rerender (p : props)
| Elapse (ms : N)
| ClickRefresh
| Unmount.

Definition perform (v : view) (a : action) : view :=
  match a with
  | Rerender p => rerender p v
  | Elapse ms => elapse ms v
  | ClickRefresh => click_refresh v
  | Unmount => unmount v
  end.

Definition run (v : view) (tr : list action) : view := fold_left perform tr v.

(** Is the logged callback a tick of the refresh interval? *)
Definition is_refresh_tick (e : event) : bool :=
  match e with RefreshTick _ _ => true | _ => false end.

(** ** The speed shown in the stats row *)

(** Is the value [null] or [undefined]? *)
Definition nullish (v : value) : bool :=
  match v with
  | VUndefined | VNull => true
  | _ => false
  end.

(** [route?.[route?.length - 1]]: the element at the last index; an
    empty array has none (index -1), and neither has a missing route. *)
Definition last_sample (r : option (list place)) : option place :=
  match r with
  | Some pts =>
      match pts with
      | [] => None
      | _ => nth_error pts (List.length pts - 1)
      end
  | None => None
  end.

(** [const lastSpeed = current_location?.speed
                       ?? route?.[route?.length - 1]?.speed],
    both read from [trackingData || {}]. *)
Definition lastSpeed (trackingData : option tracking) : value :=
  let current_location :=
    match trackingData with Some td => current_location td | None => None end in
  let route :=
    match trackingData with Some td => route td | None => None end in
  if nullish (chain speed current_location)
  then chain speed (last_sample route)
  else chain speed current_location.

End TrackingMap.

(* ================================================================== *)
(** * The rules as the specification words them *)
(* ================================================================== *)

Module Spec.
Import JS.

Local Open Scope Q_scope.





(** An input the estimator treats as missing: absent, empty, or not a
    non-zero number. *)
Inductive missing : value -> Prop :=
| missing_undefined : missing VUndefined
| missing_null : missing VNull
| missing_empty : missing (VStr EmptyString)
| missing_nan : missing (VNum NaN)
| missing_zero (q : Q) : q == 0 -> missing (VNum (Fin q)).



(** The haversine term: the squared half-chord between two points. *)
Definition hav_a (lat1 lon1 lat2 lon2 : R) : R :=
  (sin ((lat2 - lat1) * PI / 180 / 2) * sin ((lat2 - lat1) * PI / 180 / 2)
   + cos (lat1 * PI / 180) * cos (lat2 * PI / 180)
     * (sin ((lon2 - lon1) * PI / 180 / 2) * sin ((lon2 - lon1) * PI / 180 / 2)))%R.

(** A timestamp field that holds something. *)
Definition present (v : value) : Prop := v <> VUndefined /\ v <> VNull.

(** What the backend puts in a timestamp field: nothing, or a date text. *)
Definition date_field (v : value) : Prop :=
  v = VUndefined \/ v = VNull \/ exists s, v = VStr s /\ s <> EmptyString.

Definition dated (td : TrackingMap.tracking) : Prop :=
  date_field (TrackingMap.created_at td)
  /\ date_field (TrackingMap.assigned_at td)
  /\ date_field (TrackingMap.picked_up_at td)
  /\ date_field (TrackingMap.delivered_at td).

(** Neither completed nor active. *)
Definition pending_step (s : TrackingMap.step) : Prop :=
  TrackingMap.done s = false /\ TrackingMap.active s = false.

(** ISO-8601 date texts of one zone order as their characters do. *)
Definition newer (a b : value) : Prop :=
  match a, b with
  | VStr x, VStr y => String.ltb y x = true
  | _, _ => False
  end.

(** Every registered interval is one whose id an effect's cleanup holds. *)
Definition owned (v : TrackingMap.view) : Prop :=
  forall tm, In tm (TrackingMap.timers v) ->
    match TrackingMap.cb tm with
    | TrackingMap.TickerCb =>
        TrackingMap.ticker_cleanup v = Some (TrackingMap.tid tm)
    | TrackingMap.RefreshCb _ =>
        TrackingMap.refresh_cleanup v = Some (TrackingMap.tid tm)
    end.

(** The state of a view between two events. *)
Definition consistent (v : TrackingMap.view) : Prop :=
  owned v
  /\ (TrackingMap.mounted v = false -> TrackingMap.timers v = [])
  /\ (TrackingMap.autoRefresh (TrackingMap.cur v) = false ->
      TrackingMap.refresh_cleanup v = None).

(** No refresh interval is registered. *)
Definition no_refresh (v : TrackingMap.view) : Prop :=
  forall tm, In tm (TrackingMap.timers v) ->
    TrackingMap.cb tm = TrackingMap.TickerCb.

(** A torn-down view: unmounted, nothing registered. *)
Definition released (v : TrackingMap.view) : Prop :=
  TrackingMap.mounted v = false /\ TrackingMap.timers v = [].

(** The refresh ticks among the logged callbacks. *)
Definition refresh_ticks (l : list TrackingMap.event) : list TrackingMap.event :=
  filter TrackingMap.is_refresh_tick l.

(** An action that does not switch [autoRefresh] back on. *)
Definition keeps_off (a : TrackingMap.action) : Prop :=
  match a with
  | TrackingMap.Rerender p => TrackingMap.autoRefresh p = false
  | _ => True
  end.

(** The wizard between two events: the step is one of the three, and
    the steps already passed are still valid. *)
Definition wizard_ok (w : ShipmentWizard.wizard) : Prop :=
  (1 <= ShipmentWizard.step w <= 3)%nat
  /\ ((2 <= ShipmentWizard.step w)%nat ->
      ShipmentWizard.validateStep 1 (ShipmentWizard.fields w) = [])
  /\ ((3 <= ShipmentWizard.step w)%nat ->
      ShipmentWizard.validateStep 2 (ShipmentWizard.fields w) = []).

(** A payload built from a form that passes the validation of all
    three steps. *)
Definition checked (p : ShipmentWizard.payload) : Prop :=
  ShipmentWizard.validateStep 1 (ShipmentWizard.data p) = []
  /\ ShipmentWizard.validateStep 2 (ShipmentWizard.data p) = []
  /\ ShipmentWizard.validateStep 3 (ShipmentWizard.data p) = []
  /\ ShipmentWizard.weight p
     = parseFloat (VStr (ShipmentForm.weight_kg (ShipmentWizard.data p))).

(** The step on which a field is filled in. *)
Definition field_step (k : ShipmentWizard.field) : nat :=
  match k with
  | ShipmentWizard.Origin_address | ShipmentWizard.Origin_latitude
  | ShipmentWizard.Origin_longitude => 1
  | ShipmentWizard.Destination_address | ShipmentWizard.Destination_latitude
  | ShipmentWizard.Destination_longitude
  | ShipmentWizard.Recipient_name | ShipmentWizard.Recipient_phone => 2
  | ShipmentWizard.Package_description | ShipmentWizard.Weight_kg
  | ShipmentWizard.Volume_m3 => 3
  end.

(** The error key of the picker shown on a step. *)
Definition coords_key (step : nat) : string :=
  if (step =? 1)%nat then "origin_coords" else "destination_coords".

(** The characters a decimal number prints to. *)
Definition printed (d : Decimal.uint) : list ascii :=
  list_ascii_of_string (NilEmpty.string_of_uint d).

(** A weight within the accepted range. *)
Definition weight_in_range (n : num Q) : Prop :=
  exists q : Q, n = Fin q /\ 0 < q /\ q <= 10000.

(** The ticker interval with id [i], next due at [t]. *)
Definition ticker_timer (i t : N) : TrackingMap.timer :=
  {| TrackingMap.tid := i; TrackingMap.period := 1000; TrackingMap.due := t;
     TrackingMap.cb := TrackingMap.TickerCb |}.

(** The refresh interval with id [j] calling [h], next due at [t]. *)
Definition refresh_timer (j : N) (h : TrackingMap.handler) (t : N)
  : TrackingMap.timer :=
  {| TrackingMap.tid := j; TrackingMap.period := 30000; TrackingMap.due := t;
     TrackingMap.cb := TrackingMap.RefreshCb h |}.

(** The intervals a view holds: while mounted the ticker interval and,
    exactly when [autoRefresh] and [onRefresh] are both given, one
    refresh interval calling that [onRefresh]; none once unmounted. *)
Definition live_intervals (v : TrackingMap.view) : Prop :=
  if TrackingMap.mounted v then
    exists i t1,
      TrackingMap.ticker_cleanup v = Some i
      /\ match TrackingMap.autoRefresh (TrackingMap.cur v),
               TrackingMap.onRefresh (TrackingMap.cur v) with
         | true, Some h =>
             exists j t2,
               TrackingMap.refresh_cleanup v = Some j
               /\ (i < j)%N /\ (j < TrackingMap.next_id v)%N
               /\ TrackingMap.timers v = [ticker_timer i t1; refresh_timer j h t2]
         | _, _ =>
             TrackingMap.refresh_cleanup v = None
             /\ (i < TrackingMap.next_id v)%N
             /\ TrackingMap.timers v = [ticker_timer i t1]
         end
  else TrackingMap.timers v = [].

(** The ticker callbacks among the logged callbacks. *)
Definition ticker_fires (l : list TrackingMap.event) : list TrackingMap.event :=
  filter (fun e => match e with TrackingMap.TickerFired _ => true | _ => false end) l.

(** The view mounted at [t0] with auto-refresh on for [h] and left alone
    for [n] milliseconds, up to what the ticker shows ([k]) and what it
    has logged ([l]). *)
Definition paced (t0 : N) (h : TrackingMap.handler) (n k : N)
           (l : list TrackingMap.event) : TrackingMap.view :=
  {| TrackingMap.now := t0 + n;
     TrackingMap.next_id := 3;
     TrackingMap.timers :=
       [ ticker_timer 1 (t0 + 1000 * (n / 1000 + 1));
         refresh_timer 2 h (t0 + 30000 * (n / 30000 + 1)) ];
     TrackingMap.mounted := true;
     TrackingMap.cur :=
       {| TrackingMap.autoRefresh := true; TrackingMap.onRefresh := Some h |};
     TrackingMap.ticker := k;
     TrackingMap.lastRefreshRef := t0 + 30000 * (n / 30000);
     TrackingMap.ticker_cleanup := Some 1;
     TrackingMap.refresh_cleanup := Some 2;
     TrackingMap.log := l |}%N.

(** A view with auto-refresh on for [h] whose refresh interval, if it
    holds one, is not due before 30 s from now. *)
Definition primed (v : TrackingMap.view) (h : TrackingMap.handler) : Prop :=
  consistent v
  /\ TrackingMap.mounted v = true
  /\ TrackingMap.cur v
     = {| TrackingMap.autoRefresh := true; TrackingMap.onRefresh := Some h |}
  /\ (forall tm, In tm (TrackingMap.timers v) ->
        TrackingMap.cb tm <> TrackingMap.TickerCb ->
        (TrackingMap.now v + 30000 <= TrackingMap.due tm)%N).

(** A parent that re-renders the view before each 30 s are over, every
    time with another [onRefresh] function: the pauses and the handlers. *)
Fixpoint hurried (h0 : TrackingMap.handler)
         (segs : list (N * TrackingMap.handler)) : Prop :=
  match segs with
  | [] => True
  | (n, h) :: rest => (n < 30000)%N /\ h <> h0 /\ hurried h rest
  end.

Definition re_renders (segs : list (N * TrackingMap.handler))
  : list TrackingMap.action :=
  flat_map
    (fun s => [ TrackingMap.Elapse (fst s);
                TrackingMap.Rerender
                  {| TrackingMap.autoRefresh := true;
                     TrackingMap.onRefresh := Some (snd s) |} ])
    segs.

End Spec.

(* ================================================================== *)
(** * Concrete inputs used below *)
(* ================================================================== *)

Module Samples.
Import JS ShipmentForm.

Import TrackingMap.

Definition point (la lo : Q) (addr : string) : place := {|
  lat := VNum (Fin la); lng := VNum (Fin lo); address := VStr addr;
  timestamp := VUndefined; speed := VUndefined
|}.

Definition ping (la lo : Q) (ts : string) : place := {|
  lat := VNum (Fin la); lng := VNum (Fin lo); address := VUndefined;
  timestamp := VStr ts; speed := VNum (Fin 40)
|}.

Definition stale_fix : place := ping (-1.28) 36.81 "2024-05-01T10:00:00Z".
Definition last_ping : place := ping (-1.27) 36.80 "2024-05-01T10:05:00Z".

(** A live location older than the last route sample. *)
Definition overtaken : tracking := {|
  shipment_id := VNum (int 7);
  tracking_number := VStr "ANT-7";
  status := VStr "in_transit";
  origin := Some (point (-1.2864) 36.8172 "Tom Mboya Street");
  destination := Some (point (-1.2648) 36.8028 "Westlands Road");
  route := Some [ping (-1.285) 36.815 "2024-05-01T09:55:00Z"; last_ping];
  current_location := Some stale_fix;
  created_at := VStr "2024-05-01T08:00:00Z";
  assigned_at := VStr "2024-05-01T09:00:00Z";
  picked_up_at := VStr "2024-05-01T09:50:00Z";
  delivered_at := VNull
|}.

(** A shipment just created. *)
Definition fresh : tracking := {|
  shipment_id := VNum (int 8);
  tracking_number := VStr "ANT-8";
  status := VStr "pending";
  origin := Some (point (-1.2864) 36.8172 "Tom Mboya Street");
  destination := Some (point (-1.2648) 36.8028 "Westlands Road");
  route := Some [];
  current_location := None;
  created_at := VStr "2024-05-01T08:00:00Z";
  assigned_at := VNull;
  picked_up_at := VNull;
  delivered_at := VNull
|}.

Definition pickup : place := point (-1.2864) 36.8172 "Tom Mboya Street".

(** A place that has a latitude and no longitude. *)
Definition no_longitude : place := {|
  lat := VNum (Fin (-1.2648)); lng := VUndefined;
  address := VStr "Westlands Road";
  timestamp := VUndefined; speed := VUndefined
|}.

(** A shipment whose destination has no longitude. *)
Definition unfinished : tracking := {|
  shipment_id := VNum (int 9);
  tracking_number := VStr "ANT-9";
  status := VStr "assigned";
  origin := Some pickup;
  destination := Some no_longitude;
  route := Some [];
  current_location := None;
  created_at := VStr "2024-05-01T08:00:00Z";
  assigned_at := VStr "2024-05-01T09:00:00Z";
  picked_up_at := VNull;
  delivered_at := VNull
|}.

(** A view of a shipment in transit, and the same once delivered. *)
Definition auto_on : props := {| autoRefresh := true; onRefresh := Some 1%N |}.
Definition auto_off : props := {| autoRefresh := false; onRefresh := Some 1%N |}.

(** The form once all three steps are filled in. *)
Definition filled : form := {|
  origin_address := "Tom Mboya Street";
  origin_latitude := "-1.2864";
  origin_longitude := "36.8172";
  destination_address := "Westlands Road";
  destination_latitude := "-1.2648";
  destination_longitude := "36.8028";
  recipient_name := "Wanjiru";
  recipient_phone := "+254 712 345 678";
  package_description := "Documents";
  weight_kg := "5.5";
  volume_m3 := EmptyString
|}.

(** Filling the wizard in, step by step, and sending it. *)
Definition filling : list ShipmentWizard.event :=
  [ ShipmentWizard.Type_in ShipmentWizard.Origin_address "Tom Mboya Street";
    ShipmentWizard.Pick_lat "-1.2864"; ShipmentWizard.Pick_lng "36.8172";
    ShipmentWizard.Next;
    ShipmentWizard.Type_in ShipmentWizard.Destination_address "Westlands Road";
    ShipmentWizard.Pick_lat "-1.2648"; ShipmentWizard.Pick_lng "36.8028";
    ShipmentWizard.Type_in ShipmentWizard.Recipient_name "Wanjiru";
    ShipmentWizard.Type_in ShipmentWizard.Recipient_phone "+254 712 345 678";
    ShipmentWizard.Next;
    ShipmentWizard.Type_in ShipmentWizard.Package_description "Documents";
    ShipmentWizard.Type_in ShipmentWizard.Weight_kg "5.5";
    ShipmentWizard.Submit ]%string.

(** Step 1 filled in and passed, then the delivery latitude typed into
    the picker of step 2, its longitude not yet. *)
Definition typing : list ShipmentWizard.event :=
  [ ShipmentWizard.Type_in ShipmentWizard.Origin_address "Tom Mboya Street";
    ShipmentWizard.Pick_lat "-1.2864"; ShipmentWizard.Pick_lng "36.8172";
    ShipmentWizard.Next;
    ShipmentWizard.Pick_lat "-1.2648" ]%string.

End Samples.

(* ================================================================== *)
(** * Properties of the cost estimator *)
(* ================================================================== *)

Module PricingProofs.
Import JS ShipmentForm.

Local Open Scope Q_scope.


Lemma nle_fin (a b : Q) : nle (Fin a) (Fin b) = Qle_bool a b.
Proof. reflexivity. Qed.

Lemma ngt_fin (a b : Q) : ngt (Fin a) (Fin b) = negb (Qle_bool a b).
Proof.
  unfold ngt, Qle_bool, c_cmp, Q_carrier, Qcompare, Z.leb.
  destruct (Qnum a * QDen b ?= Qnum b * QDen a)%Z; reflexivity.
Qed.




Lemma Qle_bool_false (x y : Q) : Qle_bool x y = false -> y < x.
Proof.
  intros E. apply Qnot_le_lt. intros Hle.
  apply Qle_bool_iff in Hle. congruence.
Qed.





Lemma missing_falsy (v : value) : Spec.missing v -> truthy v = false.
Proof.
  intros [ | | | | q Hq]; try reflexivity.
  destruct q as [n d]. unfold Qeq in Hq. simpl in *.
  replace n with 0%Z by lia. reflexivity.
Qed.

(** **** C4 *)

(** C4, as stated, fails: a negative distance is not rejected, the
    estimator prices it. *)
Lemma previewCost_negative_is_priced :
  -5 <= 0 /\
  previewCost (VNum (Fin (-5))) (VNum (Fin 10)) = VNum (Fin (-50)) /\
  previewCost (VNum (Fin (-5))) (VNum (Fin 10)) <> VNull.
Proof.
  split; [discriminate|]. split; [reflexivity | discriminate].
Qed.

(** C4, amended. The estimator returns [null] whenever either input is
    missing: [undefined], [null], the empty string, NaN or the number
    zero; in particular [previewCost(null, x)] and [previewCost(x, 0)]
    are [null] for every [x].  The function is total: it never throws. *)
Theorem previewCost_null_on_missing :
  (forall a b : value,
     Spec.missing a \/ Spec.missing b -> previewCost a b = VNull)
  /\ (forall x : value, previewCost VNull x = VNull)
  /\ (forall x : value, previewCost x (VNum (int 0)) = VNull).
Proof.
  split; [| split].
  - intros a b [Ha | Hb]; unfold previewCost.
    + rewrite (missing_falsy Ha). reflexivity.
    + rewrite (missing_falsy Hb). rewrite orb_true_r. reflexivity.
  - reflexivity.
  - intros x. unfold previewCost. simpl. rewrite orb_true_r. reflexivity.
Qed.

Lemma previewCost_null_on_missing_witness :
  previewCost (VStr EmptyString) (VNum (Fin 3)) = VNull.
Proof.
  apply (proj1 previewCost_null_on_missing).
  left. exact Spec.missing_empty.
Defined.

(** **** C9 *)



End PricingProofs.

(* ================================================================== *)
(** * The cost estimate as the engine computes it *)
(* ================================================================== *)

Module Binary64Proofs.
Import Binary64.






(** **** C1 *)



(** Where rounding shows: with the distance 0.03 the product by 50 is
    rounded to 1.5 and the total to 202, and the texts ["64.13"] and
    ["33.3"] give 2750; the same formula on exact decimals gives 201 and
    2751. *)
Example previewCost_rounds :
  previewCost (VNum (of_Q (3 # 100))) (VNum (of_Q (1 # 10))) = VNum (of_Z 202)
  /\ previewCost (VStr "64.13") (VStr "33.3") = VNum (of_Z 2750)
  /\ previewCost (VNum (of_Q (inject_Z (10 ^ 308)))) (VNum (of_Z 1))
     = VNum (S754_infinity false).
Proof. vm_compute. auto. Qed.

(** The guard is the one of the exact estimate: an input that is not
    truthy gives [null], and a negative distance is priced. *)
Lemma guard_in_binary64 :
  (forall a b : value,
     truthy a = false \/ truthy b = false -> previewCost a b = VNull)
  /\ previewCost (VNum (of_Z (-5))) (VNum (of_Z 10)) = VNum (of_Z (-50)).
Proof.
  split; [| vm_compute; reflexivity].
  intros a b [H | H]; unfold previewCost; rewrite H;
    [| rewrite orb_true_r]; reflexivity.
Qed.

End Binary64Proofs.

(* ================================================================== *)
(** * Properties of the great-circle distance *)
(* ================================================================== *)

Module GeoProofs.
Import JS ShipmentForm.

Local Open Scope R_scope.

Lemma Rcmp_Gt (x y : R) : y < x -> Rcmp x y = Gt.
Proof.
  intros H. unfold Rcmp.
  destruct (total_order_T x y) as [[Hlt | Heq] | Hgt]; try reflexivity; lra.
Qed.


Lemma Rcmp_Lt (x y : R) : x < y -> Rcmp x y = Lt.
Proof.
  intros H. unfold Rcmp.
  destruct (total_order_T x y) as [[Hlt | Heq] | Hgt]; try reflexivity; lra.
Qed.

Lemma ndiv_fin_pos (a b : R) : 0 < b -> ndiv (Fin a) (Fin b) = Fin (a / b).
Proof.
  intros Hb. unfold ndiv. cbn [c_cmp c_zero c_div R_carrier].
  rewrite (Rcmp_Gt Hb). reflexivity.
Qed.

Lemma nsub_fin (a b : R) : nsub (Fin a) (Fin b) = Fin (a - b).
Proof. reflexivity. Qed.

Lemma nadd_fin (a b : R) : nadd (Fin a) (Fin b) = Fin (a + b).
Proof. reflexivity. Qed.

Lemma nmul_fin (a b : R) : nmul (Fin a) (Fin b) = Fin (a * b).
Proof. reflexivity. Qed.

Lemma npow2_fin (a : R) : npow2 (Fin a) = Fin (a * a).
Proof. reflexivity. Qed.

Lemma sin_fin (a : R) : Math_sin (Fin a) = Fin (sin a).
Proof. reflexivity. Qed.

Lemma cos_fin (a : R) : Math_cos (Fin a) = Fin (cos a).
Proof. reflexivity. Qed.

Lemma ndiv_fin_180 (a : R) : ndiv (Fin a) (rint 180) = Fin (a / 180).
Proof. apply ndiv_fin_pos. lra. Qed.

Lemma ndiv_fin_2 (a : R) : ndiv (Fin a) (rint 2) = Fin (a / 2).
Proof. apply ndiv_fin_pos. lra. Qed.

Create Rewrite HintDb num_fin.
#[local] Hint Rewrite nsub_fin nadd_fin nmul_fin npow2_fin sin_fin cos_fin
  ndiv_fin_180 ndiv_fin_2 : num_fin.

(** On finite coordinates the arithmetic stays finite up to the square
    roots: the function is [6371 * 2 * atan2 (sqrt a) (sqrt (1 - a))]. *)
Lemma haversine_fin (lat1 lon1 lat2 lon2 : R) :
  haversine (Fin lat1) (Fin lon1) (Fin lat2) (Fin lon2)
  = nmul (Fin (6371 * 2))
      (Math_atan2 (Math_sqrt (Fin (Spec.hav_a lat1 lon1 lat2 lon2)))
                  (Math_sqrt (Fin (1 - Spec.hav_a lat1 lon1 lat2 lon2)))).
Proof.
  unfold haversine, Math_PI. autorewrite with num_fin.
  unfold rint. autorewrite with num_fin. reflexivity.
Qed.



(** [Math.atan2] yields NaN or an angle; never an infinity. *)
Lemma atan2_range (y x : num R) :
  Math_atan2 y x = NaN
  \/ exists t, Math_atan2 y x = Fin t /\ - (2 * PI) < t < 2 * PI.
Proof.
  pose proof PI_RGT_0 as Hpi.
  destruct y as [ | | | b], x as [ | | | a]; cbn [Math_atan2]; auto; right;
    try (eexists; split; [reflexivity | lra]).
  - destruct (Rcmp b 0); eexists; (split; [reflexivity | lra]).
  - pose proof (atan_bound (b / a)) as Hb.
    destruct (Rcmp a 0), (Rcmp b 0); eexists; (split; [reflexivity | lra]).
Qed.

(** No distance comes near [1e21], where [toFixed] would change to
    exponent notation. *)
Lemma haversine_range (lat1 lon1 lat2 lon2 r : R) :
  haversine (Fin lat1) (Fin lon1) (Fin lat2) (Fin lon2) = Fin r ->
  - 1000000000000000000000 < r < 1000000000000000000000.
Proof.
  rewrite haversine_fin. pose proof PI_4 as Hpi.
  match goal with
  | |- nmul _ (Math_atan2 ?y ?x) = _ -> _ =>
      destruct (atan2_range y x) as [-> | [t [-> Ht]]]
  end.
  - discriminate.
  - rewrite nmul_fin. intros [= <-]. nra.
Qed.

(** **** C6 *)


End GeoProofs.

(* ================================================================== *)
(** * Properties of the creation-time previews *)
(* ================================================================== *)

Module PreviewProofs.
Import JS ShipmentForm.

Lemma truthy_str (s : string) : s <> EmptyString -> truthy (VStr s) = true.
Proof.
  intros Hs. unfold truthy.
  destruct (String.eqb_spec s EmptyString); [contradiction | reflexivity].
Qed.

(** NaN is contagious through the arithmetic. *)
Section Contagion.
Context {A : Type} `{Carrier A}.

Lemma nadd_nan_l (y : num A) : nadd NaN y = NaN.
Proof. reflexivity. Qed.

Lemma nadd_nan_r (x : num A) : nadd x NaN = NaN.
Proof. destruct x; reflexivity. Qed.

Lemma nsub_nan_l (y : num A) : nsub NaN y = NaN.
Proof. reflexivity. Qed.

Lemma nsub_nan_r (x : num A) : nsub x NaN = NaN.
Proof. destruct x; reflexivity. Qed.

Lemma nmul_nan_l (y : num A) : nmul NaN y = NaN.
Proof. reflexivity. Qed.

Lemma nmul_nan_r (x : num A) : nmul x NaN = NaN.
Proof. destruct x; reflexivity. Qed.

Lemma ndiv_nan_l (y : num A) : ndiv NaN y = NaN.
Proof. reflexivity. Qed.

Lemma npow2_nan : npow2 (NaN : num A) = NaN.
Proof. reflexivity. Qed.
End Contagion.

Lemma sin_nan : Math_sin NaN = NaN.
Proof. reflexivity. Qed.

Lemma cos_nan : Math_cos NaN = NaN.
Proof. reflexivity. Qed.

Ltac nan_step :=
  first [ rewrite nsub_nan_l | rewrite nsub_nan_r
        | rewrite nmul_nan_l | rewrite nmul_nan_r
        | rewrite nadd_nan_l | rewrite nadd_nan_r
        | rewrite ndiv_nan_l | rewrite npow2_nan
        | rewrite sin_nan | rewrite cos_nan ].

Lemma haversine_nan (lat1 lon1 lat2 lon2 : num R) :
  lat1 = NaN \/ lon1 = NaN \/ lat2 = NaN \/ lon2 = NaN ->
  haversine lat1 lon1 lat2 lon2 = NaN.
Proof.
  intros Hn. unfold haversine.
  match goal with
  | |- nmul ?k (Math_atan2 (Math_sqrt ?a) _) = _ =>
      assert (Ha : a = NaN); [| rewrite Ha; reflexivity]
  end.
  destruct Hn as [-> | [-> | [-> | ->]]]; repeat nan_step; reflexivity.
Qed.

(** With both latitudes typed, the distance text is the formatted
    haversine of the four parsed fields. *)
Lemma distKm_set (f : form) :
  origin_latitude f <> EmptyString ->
  destination_latitude f <> EmptyString ->
  distKm f =
  VStr (toFixed2
          (haversine
             (toR (parseFloat (VStr (origin_latitude f))))
             (toR (parseFloat (VStr (origin_longitude f))))
             (toR (parseFloat (VStr (destination_latitude f))))
             (toR (parseFloat (VStr (destination_longitude f)))))).
Proof.
  intros Ho Hd. unfold distKm.
  rewrite (truthy_str Ho), (truthy_str Hd). reflexivity.
Qed.

Lemma distKm_unset (f : form) :
  origin_latitude f = EmptyString \/ destination_latitude f = EmptyString ->
  distKm f = VNull.
Proof.
  intros [E | E]; unfold distKm; rewrite E; cbn [truthy String.eqb negb andb].
  - reflexivity.
  - rewrite andb_false_r. reflexivity.
Qed.

Lemma costKsh_unset (f : form) :
  distKm f = VNull \/ weight_kg f = EmptyString -> costKsh f = VNull.
Proof.
  intros [E | E]; unfold costKsh; rewrite E; [reflexivity|].
  cbn [truthy String.eqb negb]. rewrite andb_false_r. reflexivity.
Qed.

(** **** C7 *)

(** C7 fails on the code.  The guard of [distKm] tests the two latitude
    fields only, where [validateStep] and the picker's [ready] test the
    latitude and the longitude.  With both latitudes typed and a
    longitude still empty, [parseFloat] of the empty text is NaN, the
    distance is NaN, and step 2 shows the distance line reading
    "NaN km". *)
Theorem distance_reads_NaN :
  forall f : form,
    origin_latitude f <> EmptyString ->
    destination_latitude f <> EmptyString ->
    origin_longitude f = EmptyString \/ destination_longitude f = EmptyString ->
    distKm f = VStr "NaN" /\ shows_distance 2 f = true.
Proof.
  intros f Ho Hd He.
  assert (E : distKm f = VStr "NaN").
  { rewrite (distKm_set f Ho Hd).
    rewrite haversine_nan; [reflexivity|].
    destruct He as [E | E]; rewrite E; auto. }
  split; [exact E|]. unfold shows_distance. rewrite E. reflexivity.
Qed.

(** The user reaches such a form by typing: on step 2, once the delivery
    latitude is typed and before the longitude is. *)
Lemma distance_reads_NaN_witness :
  ShipmentWizard.step (ShipmentWizard.play ShipmentWizard.start Samples.typing) = 2%nat
  /\ destination_longitude
       (ShipmentWizard.fields (ShipmentWizard.play ShipmentWizard.start Samples.typing))
     = EmptyString
  /\ distKm (ShipmentWizard.fields
               (ShipmentWizard.play ShipmentWizard.start Samples.typing))
     = VStr "NaN"
  /\ shows_distance 2
       (ShipmentWizard.fields (ShipmentWizard.play ShipmentWizard.start Samples.typing))
     = true.
Proof.
  split; [reflexivity|]. split; [reflexivity|].
  apply distance_reads_NaN; [discriminate | discriminate | right; reflexivity].
Defined.

End PreviewProofs.


(* ================================================================== *)
(** * Properties of the tracking view *)
(* ================================================================== *)

Module TrackingProofs.
Import JS TrackingMap.

Lemma currentPos_live (td : tracking) (c : place) :
  current_location td = Some c -> currentPos td = Some c.
Proof. intros E. unfold currentPos. rewrite E. reflexivity. Qed.

Lemma currentPos_last (td : tracking) (r : list place) (p : place) :
  current_location td = None -> route td = Some (r ++ [p]) ->
  currentPos td = Some p.
Proof.
  intros Ec Er. unfold currentPos. rewrite Ec, Er.
  rewrite last_length. cbn [Nat.ltb Nat.leb].
  replace (S (List.length r) - 1)%nat with (List.length r) by lia.
  rewrite nth_error_app2 by lia. rewrite Nat.sub_diag. reflexivity.
Qed.

Lemma currentPos_none (td : tracking) :
  current_location td = None -> route td = None \/ route td = Some [] ->
  currentPos td = None.
Proof.
  intros Ec [Er | Er]; unfold currentPos; rewrite Ec, Er; reflexivity.
Qed.

(** A call that returned is one of the script. *)
Lemma draw_calls_in (L : leaflet) (ops : list op) (c : prim) :
  In c (calls (draw L ops)) -> In (Call c) ops.
Proof.
  induction ops as [| [c' | p] ops IH]; cbn [draw].
  - intros [].
  - destruct (L c'); cbn [calls]; [| intros []].
    intros [-> | H]; [left; reflexivity | right; apply IH, H].
  - destruct (popup_throws p); cbn [calls]; [intros [] |].
    intros H. right. apply IH, H.
Qed.

(** The calls of the script, one by one. *)
Lemma script_calls (td : tracking) (o d : place) (c : prim) :
  In (Call c) (script td o d) ->
  c = MapInit (coords o) 13 \/ c = TileLayer
  \/ c = Marker Pickup (coords o) \/ c = Marker Delivery (coords d)
  \/ c = Polyline Direct [coords o; coords d]
  \/ (exists pts, route td = Some pts /\ c = Polyline Travelled (map coords pts))
  \/ (exists p, currentPos td = Some p /\ c = Marker Truck (coords p))
  \/ c = FitBounds
           (coords o :: coords d ::
            map coords (match route td with Some pts => pts | None => [] end)).
Proof.
  unfold script. intros H.
  apply in_app_or in H. destruct H as [H | H].
  { cbn [In] in H.
    destruct H as [H | [H | [H | [H | [H | []]]]]]; injection H as <-; auto 6. }
  apply in_app_or in H. destruct H as [H | H].
  { destruct (route td) as [pts|]; [| destruct H].
    destruct (2 <=? List.length pts)%nat; [| destruct H].
    destruct H as [H | []]. injection H as <-. do 5 right. left. eauto. }
  apply in_app_or in H. destruct H as [H | H].
  { destruct (currentPos td) as [p|]; [| destruct H].
    destruct H as [H | [H | []]]; [| discriminate H].
    injection H as <-. do 6 right. left. eauto. }
  destruct H as [H | []]. injection H as <-. do 7 right. reflexivity.
Qed.

(** What a run of [buildMap] was given. *)
Lemma buildMap_run (L : leaflet) (div : bool) (td : tracking) (r : drawing) :
  buildMap L div (Some td) = Some r ->
  exists o d,
    origin td = Some o /\ destination td = Some d
    /\ r = draw L (script td o d).
Proof.
  unfold buildMap. intros Hb.
  destruct (negb div); [discriminate|].
  destruct (negb (truthy (chain lat (origin td)))
            || negb (truthy (chain lat (destination td)))); [discriminate|].
  destruct (origin td) as [o|]; [| discriminate].
  destruct (destination td) as [d|]; [| discriminate].
  exists o, d. injection Hb as <-. auto.
Qed.

(** The only live marker [buildMap] ever places sits on the resolved
    position. *)
Lemma truck_at_currentPos (L : leaflet) (div : bool) (td : tracking)
      (r : drawing) (pos : latlng) :
  buildMap L div (Some td) = Some r -> In (Marker Truck pos) (calls r) ->
  exists c, currentPos td = Some c /\ pos = coords c.
Proof.
  intros Hb Hin.
  destruct (buildMap_run _ _ _ Hb) as (o & d & _ & _ & ->).
  apply draw_calls_in, script_calls in Hin.
  destruct Hin as [E | [E | [E | [E | [E | [E | [E | E]]]]]]];
    try discriminate E.
  - destruct E as (pts & _ & E). discriminate E.
  - destruct E as (c & Hc & E). injection E as ->. eauto.
Qed.

(** **** C2 *)

(** C2. The resolved position is [current_location] when it is present;
    otherwise the last element of [route] in the order supplied, when
    the route is not empty; otherwise nothing is resolved ([null]) and
    the map gets no live marker at all, at (0,0) or anywhere else,
    whatever Leaflet does with the calls made. *)
Theorem currentPos_priority :
  forall td : tracking,
    (forall c, current_location td = Some c -> currentPos td = Some c)
    /\ (forall r p, current_location td = None -> route td = Some (r ++ [p]) ->
          currentPos td = Some p)
    /\ (current_location td = None ->
        route td = None \/ route td = Some [] ->
        currentPos td = None
        /\ forall L div r pos,
             buildMap L div (Some td) = Some r ->
             ~ In (Marker Truck pos) (calls r)).
Proof.
  intros td. split; [| split].
  - apply currentPos_live.
  - apply currentPos_last.
  - intros Ec Er. pose proof (currentPos_none td Ec Er) as En.
    split; [exact En|].
    intros L div r pos Hb Hin.
    destruct (truck_at_currentPos _ _ _ _ Hb Hin) as [c [Hc _]].
    congruence.
Qed.

Lemma currentPos_priority_witness :
  currentPos Samples.fresh = None
  /\ forall L div r pos,
       buildMap L div (Some Samples.fresh) = Some r ->
       ~ In (Marker Truck pos) (calls r).
Proof.
  apply (proj2 (proj2 (currentPos_priority Samples.fresh))).
  - reflexivity.
  - right. reflexivity.
Defined.

(** **** C10 *)

(** C10. The resolution never looks at timestamps: whenever
    [current_location] is present it is the resolved position, also
    when a route sample, the last one included, is strictly newer. *)
Theorem currentPos_ignores_timestamps :
  (forall td c, current_location td = Some c ->
     forall r p, route td = Some r -> In p r ->
       Spec.newer (timestamp p) (timestamp c) ->
       currentPos td = Some c)
  /\ (forall td c, current_location td = Some c -> currentPos td = Some c).
Proof.
  split.
  - intros td c Ec r p _ _ _. exact (currentPos_live td Ec).
  - exact currentPos_live.
Qed.

Lemma currentPos_ignores_timestamps_witness :
  currentPos Samples.overtaken = Some Samples.stale_fix.
Proof.
  apply (proj1 currentPos_ignores_timestamps Samples.overtaken Samples.stale_fix
           eq_refl [Samples.ping (-1.285) 36.815 "2024-05-01T09:55:00Z"; Samples.last_ping]
           Samples.last_ping eq_refl).
  - right. left. reflexivity.
  - reflexivity.
Defined.

(** **** C5 *)

Lemma done_iff_present (v : value) :
  Spec.date_field v -> (truthy v = true <-> Spec.present v).
Proof.
  unfold Spec.present.
  intros [-> | [-> | [s [-> Hs]]]]; cbn [truthy].
  - split; [discriminate | intros [H _]; congruence].
  - split; [discriminate | intros [_ H]; congruence].
  - destruct (String.eqb_spec s EmptyString); [contradiction|].
    split; [split; discriminate | reflexivity].
Qed.

Lemma active_iff_status (v : value) (lit : string) :
  strict_eq_str v lit = true <-> v = VStr lit.
Proof.
  destruct v; cbn [strict_eq_str]; try (split; discriminate).
  rewrite String.eqb_eq. split; [intros -> | intros [= ->]]; reflexivity.
Qed.

Lemma absent_not_done (v : value) :
  Spec.date_field v -> ~ Spec.present v -> truthy v = false.
Proof.
  intros Hd Hn. destruct (truthy v) eqn:E; [| reflexivity].
  apply (done_iff_present Hd) in E. contradiction.
Qed.

(** C5. The timeline of a snapshot is exactly four steps, for
    [created_at], [assigned_at], [picked_up_at] and [delivered_at] in
    that order (the third, the in-transit milestone, carries the label
    "Transit"); a step is completed iff its timestamp field is present,
    active iff the status is the one that goes with it ([pending],
    [assigned], [in_transit]), and the last is never active.  A
    snapshot with only [created_at] set and status [pending] has its
    first step completed and active and the other three pending. *)
Theorem timeline_four_steps :
  (forall td : tracking, Spec.dated td ->
     exists s1 s2 s3 s4 : step,
       timeline (Some td) = [s1; s2; s3; s4]
       /\ map label [s1; s2; s3; s4]
          = ["Created"; "Assigned"; "Transit"; "Delivered"]%string
       /\ map time [s1; s2; s3; s4]
          = [created_at td; assigned_at td; picked_up_at td; delivered_at td]
       /\ (done s1 = true <-> Spec.present (created_at td))
       /\ (done s2 = true <-> Spec.present (assigned_at td))
       /\ (done s3 = true <-> Spec.present (picked_up_at td))
       /\ (done s4 = true <-> Spec.present (delivered_at td))
       /\ (active s1 = true <-> status td = VStr "pending")
       /\ (active s2 = true <-> status td = VStr "assigned")
       /\ (active s3 = true <-> status td = VStr "in_transit")
       /\ active s4 = false)
  /\ (forall td : tracking, Spec.dated td ->
        Spec.present (created_at td) ->
        ~ Spec.present (assigned_at td) ->
        ~ Spec.present (picked_up_at td) ->
        ~ Spec.present (delivered_at td) ->
        status td = VStr "pending" ->
        exists s1 s2 s3 s4 : step,
          timeline (Some td) = [s1; s2; s3; s4]
          /\ done s1 = true /\ active s1 = true
          /\ Spec.pending_step s2 /\ Spec.pending_step s3
          /\ Spec.pending_step s4).
Proof.
  split.
  - intros td (Hc & Ha & Hp & Hd).
    unfold timeline. do 4 eexists.
    split; [reflexivity|]. cbn [map label time done active chain].
    repeat split; try reflexivity;
      try (apply done_iff_present; assumption);
      try (apply active_iff_status); try (apply done_iff_present; assumption).
  - intros td (Hc & Ha & Hp & Hd) Pc Na Np Nd Hs.
    unfold timeline. do 4 eexists.
    split; [reflexivity|].
    unfold Spec.pending_step. cbn [done active chain]. rewrite Hs.
    rewrite (absent_not_done Ha Na), (absent_not_done Hp Np),
      (absent_not_done Hd Nd).
    repeat split; try reflexivity.
    apply (done_iff_present Hc). exact Pc.
Qed.

Lemma dated_fresh : Spec.dated Samples.fresh.
Proof.
  unfold Spec.dated, Spec.date_field. cbn.
  repeat split; auto.
  right. right. eexists. split; [reflexivity | discriminate].
Qed.

Lemma timeline_four_steps_witness :
  exists s1 s2 s3 s4 : step,
    timeline (Some Samples.fresh) = [s1; s2; s3; s4]
    /\ done s1 = true /\ active s1 = true
    /\ Spec.pending_step s2 /\ Spec.pending_step s3 /\ Spec.pending_step s4.
Proof.
  apply (proj2 timeline_four_steps Samples.fresh dated_fresh).
  - split; discriminate.
  - intros [_ H]. apply H. reflexivity.
  - intros [_ H]. apply H. reflexivity.
  - intros [_ H]. apply H. reflexivity.
  - reflexivity.
Defined.

(** **** C8 *)

(** C8 fails on the code.  The guard of [buildMap] tests the two
    latitudes and nothing else.  With a destination that has a latitude
    and no longitude the run is past the guard: it creates the map, adds
    the tile layer and the pickup marker, and ends by the exception
    Leaflet throws at the position of the delivery marker, the frame
    half drawn.  With such an origin it is the creation of the map that
    throws: the run ends by an exception where the claim has a silent
    "insufficient data" state. *)
Theorem frame_half_drawn :
  forall (L : leaflet) (td : tracking) (o d : place),
    origin td = Some o -> destination td = Some d ->
    truthy (lat o) = true -> truthy (lat d) = true ->
    (L (MapInit (coords o) 13) = false ->
     buildMap L true (Some td) = Some {| calls := []; threw := true |})
    /\ (L (MapInit (coords o) 13) = true -> L TileLayer = true ->
        L (Marker Pickup (coords o)) = true ->
        L (Marker Delivery (coords d)) = false ->
        buildMap L true (Some td)
        = Some {| calls := [MapInit (coords o) 13; TileLayer;
                            Marker Pickup (coords o)];
                  threw := true |}).
Proof.
  intros L td o d Ho Hd To Td.
  unfold buildMap. rewrite Ho, Hd. cbn [negb chain]. rewrite To, Td.
  cbn [negb orb]. unfold script. cbn [app draw].
  split.
  - intros H1. rewrite H1. reflexivity.
  - intros H1 H2 H3 H4. rewrite H1, H2, H3, H4. reflexivity.
Qed.

Lemma frame_half_drawn_witness :
  lng Samples.no_longitude = VUndefined
  /\ buildMap LatLng_checked true (Some Samples.unfinished)
     = Some {| calls := [MapInit (coords Samples.pickup) 13; TileLayer;
                         Marker Pickup (coords Samples.pickup)];
               threw := true |}.
Proof.
  split; [reflexivity|].
  apply (proj2 (frame_half_drawn LatLng_checked Samples.unfinished
                  (o := Samples.pickup) (d := Samples.no_longitude)
                  eq_refl eq_refl eq_refl eq_refl));
    reflexivity.
Defined.

End TrackingProofs.

(* ================================================================== *)
(** * Properties of the two interval effects *)
(* ================================================================== *)

Module SchedulerProofs.
Import JS TrackingMap.

(** *** What running callbacks leaves alone *)

Lemma fire_frame (c : callback) (v : view) :
  timers (fire c v) = timers v
  /\ mounted (fire c v) = mounted v
  /\ cur (fire c v) = cur v
  /\ ticker_cleanup (fire c v) = ticker_cleanup v
  /\ refresh_cleanup (fire c v) = refresh_cleanup v.
Proof. destruct c; repeat split. Qed.

Lemma fold_fire_frame (l : list timer) :
  forall v,
    let v' := fold_left (fun st tm => fire (cb tm) st) l v in
    timers v' = timers v
    /\ mounted v' = mounted v
    /\ cur v' = cur v
    /\ ticker_cleanup v' = ticker_cleanup v
    /\ refresh_cleanup v' = refresh_cleanup v.
Proof.
  induction l as [| tm l IH]; intros v; cbn [fold_left].
  - repeat split.
  - destruct (IH (fire (cb tm) v)) as (H1 & H2 & H3 & H4 & H5).
    destruct (fire_frame (cb tm) v) as (F1 & F2 & F3 & F4 & F5).
    cbv zeta. rewrite H1, H2, H3, H4, H5. auto.
Qed.

Lemma fold_fire_tickers (l : list timer) :
  (forall tm, In tm l -> cb tm = TickerCb) ->
  forall v,
    Spec.refresh_ticks (log (fold_left (fun st tm => fire (cb tm) st) l v))
    = Spec.refresh_ticks (log v).
Proof.
  induction l as [| tm l IH]; intros Hl v; cbn [fold_left]; [reflexivity|].
  rewrite IH by (intros x Hx; apply Hl; right; exact Hx).
  rewrite (Hl tm (or_introl eq_refl)). cbn [fire set_display log].
  unfold Spec.refresh_ticks. rewrite filter_app. cbn. apply app_nil_r.
Qed.

Lemma reschedule_same (t : N) (tm : timer) :
  tid (reschedule t tm) = tid tm /\ cb (reschedule t tm) = cb tm.
Proof. unfold reschedule. destruct (due tm =? t)%N; split; reflexivity. Qed.

Lemma tick_frame (v : view) :
  timers (tick v) = map (reschedule (now v + 1)) (timers v)
  /\ mounted (tick v) = mounted v
  /\ cur (tick v) = cur v
  /\ ticker_cleanup (tick v) = ticker_cleanup v
  /\ refresh_cleanup (tick v) = refresh_cleanup v.
Proof.
  unfold tick.
  match goal with
  | |- context [fold_left ?f ?l ?v1] =>
      destruct (fold_fire_frame l v1) as (H1 & H2 & H3 & H4 & H5)
  end.
  cbv zeta in *. rewrite H1, H2, H3, H4, H5. repeat split.
Qed.

(** *** The invariant of a view *)

Lemma consistent_mount (p : props) (t0 : N) : Spec.consistent (mount p t0).
Proof.
  unfold Spec.consistent, Spec.owned, mount.
  destruct p as [[|] [h|]]; cbn; repeat split; try discriminate;
    intros tm Hin; repeat (destruct Hin as [<- | Hin]); try contradiction;
    reflexivity.
Qed.

Lemma consistent_tick (v : view) : Spec.consistent v -> Spec.consistent (tick v).
Proof.
  intros (Ho & Hm & Ha).
  destruct (tick_frame v) as (H1 & H2 & H3 & H4 & H5).
  unfold Spec.consistent, Spec.owned. rewrite H1, H2, H3, H4, H5.
  repeat split.
  - intros tm Hin. apply in_map_iff in Hin. destruct Hin as [tm0 [<- Hin0]].
    destruct (reschedule_same (now v + 1) tm0) as [-> ->]. apply Ho, Hin0.
  - intros Hf. rewrite (Hm Hf). reflexivity.
  - exact Ha.
Qed.

Lemma consistent_elapse (ms : N) (v : view) :
  Spec.consistent v -> Spec.consistent (elapse ms v).
Proof. apply N.iter_invariant. intros x. apply consistent_tick. Qed.

Lemma consistent_click (v : view) :
  Spec.consistent v -> Spec.consistent (click_refresh v).
Proof.
  intros H. unfold click_refresh.
  destruct (mounted v); [| exact H].
  destruct (onRefresh (cur v)); exact H.
Qed.

Lemma In_clear (id : N) (v : view) (tm : timer) :
  In tm (timers (clearInterval id v)) -> In tm (timers v) /\ tid tm <> id.
Proof.
  cbn [clearInterval set_timers timers]. intros Hin.
  apply filter_In in Hin. destruct Hin as [Hin Hne]. split; [exact Hin|].
  intros E. rewrite E, N.eqb_refl in Hne. discriminate.
Qed.

Lemma In_cleanup (c : option N) (v : view) (tm : timer) :
  In tm (timers (cleanup c v)) -> In tm (timers v) /\ c <> Some (tid tm).
Proof.
  destruct c as [id|]; cbn [cleanup].
  - intros Hin. apply In_clear in Hin. destruct Hin as [Hin Hne].
    split; [exact Hin | congruence].
  - intros Hin. split; [exact Hin | discriminate].
Qed.

Lemma cleanup_frame (c : option N) (v : view) :
  mounted (cleanup c v) = mounted v
  /\ cur (cleanup c v) = cur v
  /\ ticker_cleanup (cleanup c v) = ticker_cleanup v
  /\ refresh_cleanup (cleanup c v) = refresh_cleanup v
  /\ log (cleanup c v) = log v.
Proof. destruct c; repeat split. Qed.

(** Once the second effect is cleaned up only the ticker is left. *)
Lemma cleanup_refresh_only_ticker (v : view) :
  Spec.owned v -> Spec.no_refresh (cleanup (refresh_cleanup v) v).
Proof.
  intros Ho tm Hin. apply In_cleanup in Hin. destruct Hin as [Hin Hne].
  specialize (Ho tm Hin). destruct (cb tm); [reflexivity | contradiction].
Qed.

Lemma consistent_rerender (p : props) (v : view) :
  Spec.consistent v -> Spec.consistent (rerender p v).
Proof.
  intros Hc. pose proof Hc as (Ho & Hm & Ha). unfold rerender.
  destruct (mounted v) eqn:Em; cbn [negb]; [| exact Hc].
  destruct (deps_changed (cur v) p); [| exact Hc].
  pose proof (cleanup_refresh_only_ticker Ho) as Hnr.
  destruct (cleanup_frame (refresh_cleanup v) v) as (C1 & C2 & C3 & C4 & C5).
  assert (Hold : forall tm, In tm (timers (cleanup (refresh_cleanup v) v)) ->
                 cb tm = TickerCb /\ ticker_cleanup v = Some (tid tm)).
  { intros tm Hin. pose proof (Hnr tm Hin) as Hcb. split; [exact Hcb|].
    apply In_cleanup in Hin. destruct Hin as [Hin _].
    specialize (Ho tm Hin). rewrite Hcb in Ho. exact Ho. }
  unfold refresh_effect, Spec.consistent, Spec.owned.
  destruct (autoRefresh p) eqn:Ep; [destruct (onRefresh p) as [h|] eqn:Eh |];
    cbn; rewrite ?C1, ?C3; repeat split; try congruence;
    intros tm Hin.
  - apply in_app_or in Hin. destruct Hin as [Hin | [<- | []]].
    + destruct (Hold tm Hin) as [-> E]. exact E.
    + reflexivity.
  - destruct (Hold tm Hin) as [-> E]. exact E.
  - destruct (Hold tm Hin) as [-> E]. exact E.
Qed.

Lemma unmount_released (v : view) :
  Spec.consistent v -> Spec.released (unmount v) /\ log (unmount v) = log v.
Proof.
  intros (Ho & Hm & Ha). unfold unmount, Spec.released.
  destruct (mounted v) eqn:Em; cbn [negb]; [| auto].
  cbv zeta.
  destruct (cleanup_frame (ticker_cleanup v) v) as (C1 & C2 & C3 & C4 & C5).
  set (v1 := cleanup (ticker_cleanup v) v) in *.
  destruct (cleanup_frame (refresh_cleanup v1) v1) as (D1 & D2 & D3 & D4 & D5).
  cbn [set_hooks mounted timers log]. rewrite D5, C5.
  repeat split.
  destruct (timers (cleanup (refresh_cleanup v1) v1)) as [| tm l] eqn:El;
    [reflexivity | exfalso].
  assert (Hin : In tm (timers (cleanup (refresh_cleanup v1) v1)))
    by (rewrite El; left; reflexivity).
  apply In_cleanup in Hin. destruct Hin as [Hin Hn2].
  apply In_cleanup in Hin. destruct Hin as [Hin Hn1].
  specialize (Ho tm Hin). rewrite C4 in Hn2.
  destruct (cb tm); contradiction.
Qed.

Lemma consistent_unmount (v : view) :
  Spec.consistent v -> Spec.consistent (unmount v).
Proof.
  intros Hc. destruct (unmount_released Hc) as [[Hm Ht] _].
  unfold Spec.consistent, Spec.owned. rewrite Ht.
  repeat split; auto; [intros tm [] |].
  destruct Hc as (_ & _ & Ha). unfold unmount.
  destruct (mounted v); cbn [negb]; [reflexivity | exact Ha].
Qed.

Lemma consistent_perform (v : view) (a : action) :
  Spec.consistent v -> Spec.consistent (perform v a).
Proof.
  destruct a; cbn [perform].
  - apply consistent_rerender.
  - apply consistent_elapse.
  - apply consistent_click.
  - apply consistent_unmount.
Qed.

Lemma consistent_run (tr : list action) :
  forall v, Spec.consistent v -> Spec.consistent (run v tr).
Proof.
  unfold run. induction tr as [| a tr IH]; intros v Hv; cbn [fold_left].
  - exact Hv.
  - apply IH, consistent_perform, Hv.
Qed.

(** *** After teardown *)

Lemma released_tick (v : view) :
  Spec.released v -> Spec.released (tick v) /\ log (tick v) = log v.
Proof.
  intros [Hm Ht]. unfold Spec.released, tick. rewrite Ht.
  cbn. auto.
Qed.

Lemma released_perform (v : view) (a : action) :
  Spec.released v -> Spec.released (perform v a) /\ log (perform v a) = log v.
Proof.
  intros Hr. pose proof Hr as [Hm Ht]. destruct a; cbn [perform].
  - unfold rerender. rewrite Hm. auto.
  - unfold elapse.
    apply (N.iter_invariant ms view tick
             (fun x => Spec.released x /\ log x = log v)); [| auto].
    intros x [Hx Hl]. destruct (released_tick Hx) as [Hx' Hl'].
    split; [exact Hx' | congruence].
  - unfold click_refresh. rewrite Hm. auto.
  - unfold unmount. rewrite Hm. auto.
Qed.

Lemma released_run (tr : list action) :
  forall v, Spec.released v -> log (run v tr) = log v.
Proof.
  unfold run. induction tr as [| a tr IH]; intros v Hr; cbn [fold_left].
  - reflexivity.
  - destruct (released_perform a Hr) as [Hr' Hl].
    rewrite (IH _ Hr'). exact Hl.
Qed.

(** *** While [autoRefresh] stays off *)

Lemma no_refresh_tick (v : view) :
  Spec.no_refresh v ->
  Spec.no_refresh (tick v)
  /\ Spec.refresh_ticks (log (tick v)) = Spec.refresh_ticks (log v).
Proof.
  intros Hn. split.
  - destruct (tick_frame v) as (H1 & _).
    intros tm Hin. rewrite H1 in Hin.
    apply in_map_iff in Hin. destruct Hin as [tm0 [<- Hin0]].
    destruct (reschedule_same (now v + 1) tm0) as [_ ->]. apply Hn, Hin0.
  - unfold tick. rewrite fold_fire_tickers; [reflexivity|].
    intros tm Hin. apply filter_In in Hin. apply Hn, Hin.
Qed.

Lemma no_refresh_cleanup (c : option N) (v : view) :
  Spec.no_refresh v -> Spec.no_refresh (cleanup c v).
Proof.
  intros Hn tm Hin. apply In_cleanup in Hin. apply Hn, Hin.
Qed.

Lemma refresh_effect_off (q : props) (v : view) :
  autoRefresh q = false ->
  timers (refresh_effect q v) = timers v /\ log (refresh_effect q v) = log v.
Proof. intros Hq. unfold refresh_effect. rewrite Hq. split; reflexivity. Qed.

Lemma no_refresh_perform (v : view) (a : action) :
  Spec.no_refresh v -> Spec.keeps_off a ->
  Spec.no_refresh (perform v a)
  /\ Spec.refresh_ticks (log (perform v a)) = Spec.refresh_ticks (log v).
Proof.
  intros Hn Hk. destruct a as [q | ms | |]; cbn [perform].
  - cbn [Spec.keeps_off] in Hk. unfold rerender.
    destruct (negb (mounted v)); [auto|].
    destruct (deps_changed (cur v) q); [| auto].
    destruct (refresh_effect_off q (cleanup (refresh_cleanup v) v) Hk) as [Et El].
    destruct (cleanup_frame (refresh_cleanup v) v) as (_ & _ & _ & _ & C5).
    split; [| rewrite El, C5; reflexivity].
    intros tm Hin. rewrite Et in Hin.
    exact (no_refresh_cleanup (refresh_cleanup v) Hn tm Hin).
  - unfold elapse.
    apply (N.iter_invariant ms view tick
             (fun x => Spec.no_refresh x
                       /\ Spec.refresh_ticks (log x) = Spec.refresh_ticks (log v)));
      [| auto].
    intros x [Hx Hl]. destruct (no_refresh_tick Hx) as [Hx' Hl'].
    split; [exact Hx' | congruence].
  - unfold click_refresh.
    destruct (mounted v); [| auto].
    destruct (onRefresh (cur v)) as [h|]; [| auto].
    split; [exact Hn|].
    cbn [set_display log]. unfold Spec.refresh_ticks.
    rewrite filter_app. cbn. apply app_nil_r.
  - unfold unmount.
    destruct (negb (mounted v)); [auto|]. cbv zeta.
    set (v1 := cleanup (ticker_cleanup v) v).
    destruct (cleanup_frame (ticker_cleanup v) v) as (_ & _ & _ & _ & C5).
    destruct (cleanup_frame (refresh_cleanup v1) v1) as (_ & _ & _ & _ & D5).
    split.
    + intros tm Hin. cbn [set_hooks timers] in Hin.
      apply (no_refresh_cleanup (refresh_cleanup v1)
               (no_refresh_cleanup (ticker_cleanup v) Hn) tm Hin).
    + cbn [set_hooks log]. rewrite D5. fold v1 in C5. rewrite C5. reflexivity.
Qed.

Lemma no_refresh_run (tr : list action) :
  forall v, Spec.no_refresh v -> Forall Spec.keeps_off tr ->
    Spec.refresh_ticks (log (run v tr)) = Spec.refresh_ticks (log v).
Proof.
  unfold run. induction tr as [| a tr IH]; intros v Hn Hk; cbn [fold_left].
  - reflexivity.
  - inversion Hk as [| a' tr' Ha Htr]; subst.
    destruct (no_refresh_perform a Hn Ha) as [Hn' Hl].
    rewrite (IH _ Hn' Htr). exact Hl.
Qed.

Lemma deps_same_autoRefresh (p q : props) :
  deps_changed p q = false -> autoRefresh p = autoRefresh q.
Proof.
  unfold deps_changed. intros H. apply orb_false_elim in H.
  destruct H as [H _]. destruct (autoRefresh p), (autoRefresh q);
    try reflexivity; discriminate.
Qed.

(** Switching [autoRefresh] off leaves no refresh interval behind. *)
Lemma rerender_off (q : props) (v : view) :
  Spec.consistent v -> autoRefresh q = false ->
  Spec.no_refresh (rerender q v) /\ log (rerender q v) = log v.
Proof.
  intros (Ho & Hm & Ha) Hq. unfold rerender.
  destruct (mounted v) eqn:Em; cbn [negb].
  - destruct (deps_changed (cur v) q) eqn:Ed.
    + destruct (refresh_effect_off q (cleanup (refresh_cleanup v) v) Hq) as [Et El].
      destruct (cleanup_frame (refresh_cleanup v) v) as (_ & _ & _ & _ & C5).
      split; [| congruence].
      intros tm Hin. rewrite Et in Hin.
      exact (cleanup_refresh_only_ticker Ho tm Hin).
    + split; [| reflexivity].
      apply deps_same_autoRefresh in Ed. rewrite Hq in Ed.
      specialize (Ha Ed). intros tm Hin. specialize (Ho tm Hin).
      destruct (cb tm); [reflexivity | congruence].
  - split; [| reflexivity]. intros tm Hin. rewrite (Hm eq_refl) in Hin.
    destruct Hin.
Qed.

(** **** C3 *)

(** C3, as stated, fails: with [autoRefresh] switched off on a mounted
    view the one-second ticker goes on firing. *)
Lemma ticker_fires_after_autoRefresh_off :
  autoRefresh Samples.auto_on = true
  /\ autoRefresh Samples.auto_off = false
  /\ log (run (mount Samples.auto_on 0) [Rerender Samples.auto_off]) = []
  /\ log (run (mount Samples.auto_on 0)
            [Rerender Samples.auto_off; Elapse 2000])
     = [TickerFired 1000; TickerFired 2000].
Proof. repeat split; vm_compute; reflexivity. Qed.

(** C3, amended. Once the view is torn down no callback of either
    periodic task fires again, whatever happens and however long the
    clock runs afterwards; and once [autoRefresh] is rendered false on
    a mounted view no further refresh tick fires for as long as it
    stays false.  The one-second ticker is bound to the mount alone and
    is released at teardown. *)
Theorem intervals_released :
  forall (p : props) (t0 : N) (tr : list action),
    let v := run (mount p t0) tr in
    (forall tr' : list action, log (run (unmount v) tr') = log v)
    /\ (forall (q : props) (tr' : list action),
          autoRefresh q = false -> Forall Spec.keeps_off tr' ->
          Spec.refresh_ticks (log (run (rerender q v) tr'))
          = Spec.refresh_ticks (log v)).
Proof.
  intros p t0 tr v.
  assert (Hc : Spec.consistent v)
    by (apply consistent_run, consistent_mount).
  split.
  - intros tr'. destruct (unmount_released Hc) as [Hr Hl].
    rewrite (released_run tr' Hr). exact Hl.
  - intros q tr' Hq Hk.
    destruct (rerender_off q Hc Hq) as [Hn Hl].
    rewrite (no_refresh_run Hn Hk). rewrite Hl. reflexivity.
Qed.

Lemma intervals_released_witness :
  Spec.refresh_ticks
    (log (run (rerender Samples.auto_off
                 (run (mount Samples.auto_on 0) [Elapse 31000]))
              [Elapse 90000; ClickRefresh; Elapse 5000]))
  = Spec.refresh_ticks (log (run (mount Samples.auto_on 0) [Elapse 31000])).
Proof.
  apply (proj2 (intervals_released Samples.auto_on 0 [Elapse 31000])).
  - reflexivity.
  - repeat constructor.
Defined.

End SchedulerProofs.

(* ================================================================== *)
(** * Further properties of the tracking view *)
(* ================================================================== *)

Module TrackingMore.
Import JS TrackingMap.

(** Without a live location the resolved position is the last sample. *)
Lemma currentPos_is_last_sample (td : tracking) :
  current_location td = None -> currentPos td = last_sample (route td).
Proof.
  intros Ec. unfold currentPos, last_sample. rewrite Ec.
  destruct (route td) as [[| a r] |]; reflexivity.
Qed.

(** X1. The speed of the stats row is the speed of the resolved
    position whenever there is no live location or the live location
    carries a speed; a live location without a speed makes the row fall
    back to the speed of the last route sample, although the marker
    stays on the live location. *)
Theorem lastSpeed_against_currentPos :
  forall td : tracking,
    (current_location td = None ->
     lastSpeed (Some td) = chain speed (currentPos td))
    /\ (forall c, current_location td = Some c -> nullish (speed c) = false ->
          lastSpeed (Some td) = speed c
          /\ lastSpeed (Some td) = chain speed (currentPos td))
    /\ (forall c, current_location td = Some c -> nullish (speed c) = true ->
          currentPos td = Some c
          /\ lastSpeed (Some td) = chain speed (last_sample (route td))).
Proof.
  intros td. split; [| split].
  - intros Ec. rewrite (currentPos_is_last_sample td Ec).
    unfold lastSpeed. rewrite Ec. reflexivity.
  - intros c Ec Hs. unfold lastSpeed, currentPos. rewrite Ec.
    cbn [chain]. rewrite Hs. auto.
  - intros c Ec Hs. unfold lastSpeed, currentPos. rewrite Ec.
    cbn [chain]. rewrite Hs. auto.
Qed.

Lemma lastSpeed_against_currentPos_witness :
  lastSpeed (Some Samples.overtaken) = VNum (Fin 40)
  /\ lastSpeed (Some Samples.overtaken)
     = chain speed (currentPos Samples.overtaken).
Proof.
  apply (proj1 (proj2 (lastSpeed_against_currentPos Samples.overtaken))
           Samples.stale_fix); reflexivity.
Defined.

(** A run that no exception ended made every call of its script. *)
Lemma draw_finished (L : leaflet) (ops : list op) :
  threw (draw L ops) = false -> calls (draw L ops) = planned ops.
Proof.
  induction ops as [| [c | p] ops IH]; cbn [draw planned flat_map app].
  - reflexivity.
  - destruct (L c); cbn [calls threw]; [| discriminate].
    intros H. f_equal. apply IH, H.
  - destruct (popup_throws p); cbn [calls threw]; [discriminate | exact IH].
Qed.

(** The last call of a script is made only by a run that no exception
    ended. *)
Lemma draw_last (L : leaflet) (x : prim) (ops : list op) :
  ~ In (Call x) ops ->
  In x (calls (draw L (ops ++ [Call x]))) ->
  threw (draw L (ops ++ [Call x])) = false.
Proof.
  induction ops as [| [c | p] ops IH]; cbn [draw app]; intros Hn.
  - destruct (L x); cbn [calls threw]; [reflexivity | intros []].
  - destruct (L c); cbn [calls threw]; [| intros []].
    intros [-> | H]; [elim Hn; left; reflexivity|].
    apply IH; [| exact H]. intros Hin. apply Hn. right. exact Hin.
  - destruct (popup_throws p); cbn [calls threw]; [intros [] |].
    apply IH. intros Hin. apply Hn. right. exact Hin.
Qed.

Lemma last_sample_in_route (r : option (list place)) (c : place) :
  last_sample r = Some c -> exists pts, r = Some pts /\ In c pts.
Proof.
  unfold last_sample. destruct r as [pts|]; [| discriminate].
  intros H. exists pts. split; [reflexivity|].
  destruct pts as [| a l]; [discriminate|].
  apply nth_error_In in H. exact H.
Qed.

(** The script is what comes before the viewport, and the viewport. *)
Lemma script_ends_fitting (td : tracking) (o d : place) :
  exists pre,
    script td o d
    = pre ++ [Call (FitBounds
                      (coords o :: coords d ::
                       map coords (match route td with
                                   | Some pts => pts | None => [] end)))]
    /\ forall b, ~ In (Call (FitBounds b)) pre.
Proof.
  unfold script. eexists. split.
  - rewrite !app_assoc. reflexivity.
  - intros b H.
    apply in_app_or in H. destruct H as [H | H].
    { apply in_app_or in H. destruct H as [H | H].
      - cbn [In] in H.
        destruct H as [H | [H | [H | [H | [H | []]]]]]; discriminate H.
      - destruct (route td) as [pts|]; [| destruct H].
        destruct (2 <=? List.length pts)%nat; [| destruct H].
        destruct H as [H | []]. discriminate H. }
    destruct (currentPos td) as [p|]; [| destruct H].
    destruct H as [H | [H | []]]; discriminate H.
Qed.

(** X2. Whenever [buildMap] runs to its end, the viewport it fits comes
    last; a run that an exception ended, thrown by Leaflet or by the
    popup text of the live marker, has fitted none.  Whatever the end,
    the points of the viewport, which are the origin, the destination
    and the route samples, contain the pickup and the delivery marker
    and every vertex of every line drawn, and the live marker too when
    the position was resolved from the route; [current_location] is not
    added to them. *)
Theorem viewport_covers_drawing :
  forall (L : leaflet) (div : bool) (td : tracking) (r : drawing),
    buildMap L div (Some td) = Some r ->
    exists o d pts,
      origin td = Some o /\ destination td = Some d
      /\ pts = coords o :: coords d ::
               map coords (match route td with Some r => r | None => [] end)
      /\ (threw r = false -> last (calls r) TileLayer = FitBounds pts)
      /\ (threw r = true -> forall b, ~ In (FitBounds b) (calls r))
      /\ (forall k pos, In (Marker k pos) (calls r) -> k <> Truck -> In pos pts)
      /\ (forall k line pos, In (Polyline k line) (calls r) -> In pos line ->
            In pos pts)
      /\ (current_location td = None ->
          forall pos, In (Marker Truck pos) (calls r) -> In pos pts).
Proof.
  intros L div td r Hb.
  destruct (TrackingProofs.buildMap_run _ _ _ Hb) as (o & d & Ho & Hd & ->).
  exists o, d. eexists. split; [exact Ho|]. split; [exact Hd|].
  split; [reflexivity|].
  set (pts := coords o :: coords d ::
              map coords (match route td with Some r => r | None => [] end)).
  destruct (script_ends_fitting td o d) as (pre & Es & Hpre). fold pts in Es.
  assert (Hsplit : forall x, In x (calls (draw L (script td o d))) ->
            x = MapInit (coords o) 13 \/ x = TileLayer
            \/ x = Marker Pickup (coords o) \/ x = Marker Delivery (coords d)
            \/ x = Polyline Direct [coords o; coords d]
            \/ (exists l, route td = Some l
                          /\ x = Polyline Travelled (map coords l))
            \/ (exists p, currentPos td = Some p /\ x = Marker Truck (coords p))
            \/ x = FitBounds pts).
  { intros x Hx. apply TrackingProofs.draw_calls_in in Hx.
    apply TrackingProofs.script_calls in Hx. exact Hx. }
  split; [| split; [| split; [| split]]].
  - intros Hf. rewrite (draw_finished _ _ Hf), Es.
    unfold planned. rewrite flat_map_app. cbn [flat_map app].
    apply last_last.
  - intros Ht b Hin.
    assert (Eb : b = pts).
    { destruct (Hsplit _ Hin) as [E | [E | [E | [E | [E | [E | [E | E]]]]]]];
        try discriminate E.
      - destruct E as (l & _ & E). discriminate E.
      - destruct E as (p & _ & E). discriminate E.
      - injection E as ->. reflexivity. }
    subst b. rewrite Es in Hin, Ht.
    rewrite (@draw_last L _ pre (Hpre pts) Hin) in Ht. discriminate Ht.
  - intros k pos Hin Hk.
    destruct (Hsplit _ Hin) as [E | [E | [E | [E | [E | [E | [E | E]]]]]]];
      try discriminate E.
    + injection E as _ ->. left. reflexivity.
    + injection E as _ ->. right. left. reflexivity.
    + destruct E as (l & _ & E). discriminate E.
    + destruct E as (p & _ & E). injection E as -> _. contradiction.
  - intros k line pos Hin Hpos.
    destruct (Hsplit _ Hin) as [E | [E | [E | [E | [E | [E | [E | E]]]]]]];
      try discriminate E.
    + injection E as _ ->. destruct Hpos as [<- | [<- | []]];
        [left | right; left]; reflexivity.
    + destruct E as (l & Hl & E). injection E as _ ->.
      subst pts. rewrite Hl. right. right. exact Hpos.
    + destruct E as (p & _ & E). discriminate E.
  - intros Ec pos Hin.
    destruct (Hsplit _ Hin) as [E | [E | [E | [E | [E | [E | [E | E]]]]]]];
      try discriminate E.
    + destruct E as (l & _ & E). discriminate E.
    + destruct E as (p & Hp & E). injection E as ->.
      rewrite (currentPos_is_last_sample td Ec) in Hp.
      destruct (last_sample_in_route _ Hp) as (l & Hl & Hin').
      subst pts. rewrite Hl. right. right. apply in_map. exact Hin'.
Qed.

Lemma viewport_covers_drawing_witness :
  exists r o d pts,
    buildMap LatLng_checked true (Some Samples.overtaken) = Some r
    /\ origin Samples.overtaken = Some o /\ destination Samples.overtaken = Some d
    /\ pts = coords o :: coords d ::
             map coords (match route Samples.overtaken with
                         | Some r => r | None => [] end)
    /\ last (calls r) TileLayer = FitBounds pts.
Proof.
  eexists.
  destruct (viewport_covers_drawing LatLng_checked true Samples.overtaken eq_refl)
    as (o & d & pts & Ho & Hd & Hp & Hl & _).
  exists o, d, pts. repeat split; try assumption.
  apply Hl. reflexivity.
Defined.

End TrackingMore.

(* ================================================================== *)
(** * Further properties of the two interval effects *)
(* ================================================================== *)

Module SchedulerMore.
Import JS TrackingMap SchedulerProofs.

Lemma fold_fire_next_id (l : list timer) :
  forall v, next_id (fold_left (fun st tm => fire (cb tm) st) l v) = next_id v.
Proof.
  induction l as [| tm l IH]; intros v; cbn [fold_left]; [reflexivity|].
  rewrite IH. destruct (cb tm); reflexivity.
Qed.

Lemma fold_fire_now (l : list timer) :
  forall v, now (fold_left (fun st tm => fire (cb tm) st) l v) = now v.
Proof.
  induction l as [| tm l IH]; intros v; cbn [fold_left]; [reflexivity|].
  rewrite IH. destruct (cb tm); reflexivity.
Qed.

Lemma tick_clock (v : view) :
  now (tick v) = (now v + 1)%N /\ next_id (tick v) = next_id v.
Proof.
  unfold tick. rewrite fold_fire_now, fold_fire_next_id. split; reflexivity.
Qed.

Lemma reschedule_ticker (t i t1 : N) :
  exists t1', reschedule t (Spec.ticker_timer i t1) = Spec.ticker_timer i t1'.
Proof.
  unfold reschedule, Spec.ticker_timer. cbn [due].
  destruct (t1 =? t)%N; eexists; reflexivity.
Qed.

Lemma reschedule_refresh (t j h t2 : N) :
  exists t2', reschedule t (Spec.refresh_timer j h t2) = Spec.refresh_timer j h t2'.
Proof.
  unfold reschedule, Spec.refresh_timer. cbn [due].
  destruct (t2 =? t)%N; eexists; reflexivity.
Qed.

Lemma live_tick (v : view) : Spec.live_intervals v -> Spec.live_intervals (tick v).
Proof.
  unfold Spec.live_intervals.
  destruct (tick_frame v) as (H1 & H2 & H3 & H4 & H5).
  destruct (tick_clock v) as [_ Hn].
  rewrite H1, H2, H3, H4, H5, Hn.
  destruct (mounted v); [| intros ->; reflexivity].
  intros (i & t1 & Hi & Hrest).
  destruct (reschedule_ticker (now v + 1) i t1) as [t1' E1].
  exists i, t1'. split; [exact Hi|].
  destruct (autoRefresh (cur v)), (onRefresh (cur v)) as [h|];
    try (destruct Hrest as (Hr & Hlt & ->); cbn [map]; rewrite E1; auto).
  destruct Hrest as (j & t2 & Hj & Hij & Hjn & ->).
  destruct (reschedule_refresh (now v + 1) j h t2) as [t2' E2].
  exists j, t2'. cbn [map]. rewrite E1, E2. auto.
Qed.

Lemma live_mount (p : props) (t0 : N) : Spec.live_intervals (mount p t0).
Proof.
  unfold Spec.live_intervals, mount.
  destruct p as [[|] [h|]]; cbn; exists 1%N; eexists;
    (split; [reflexivity|]);
    try (repeat split; reflexivity).
  exists 2%N. eexists. repeat split; reflexivity.
Qed.

Lemma live_click (v : view) :
  Spec.live_intervals v -> Spec.live_intervals (click_refresh v).
Proof.
  intros H. unfold click_refresh.
  destruct (mounted v) eqn:Em; [| exact H].
  destruct (onRefresh (cur v)) eqn:Eo; [| exact H].
  unfold Spec.live_intervals in *. cbn. rewrite Em in *. rewrite Eo in *.
  exact H.
Qed.

(** Cleaning the second effect up leaves the ticker interval alone. *)
Lemma cleanup_refresh_shape (v : view) :
  Spec.live_intervals v -> mounted v = true ->
  exists i t1,
    ticker_cleanup v = Some i /\ (i < next_id v)%N
    /\ timers (cleanup (refresh_cleanup v) v) = [Spec.ticker_timer i t1].
Proof.
  unfold Spec.live_intervals. intros H Em. rewrite Em in H.
  destruct H as (i & t1 & Hi & Hrest). exists i, t1. split; [exact Hi|].
  destruct (autoRefresh (cur v)), (onRefresh (cur v)) as [h|];
    try (destruct Hrest as (-> & Hlt & Ht); cbn [cleanup]; auto).
  destruct Hrest as (j & t2 & -> & Hij & Hjn & Ht).
  split; [lia|].
  cbn [cleanup clearInterval set_timers timers]. rewrite Ht.
  cbn [filter Spec.ticker_timer Spec.refresh_timer tid].
  rewrite N.eqb_refl. cbn [negb].
  destruct (N.eqb_spec i j); [lia | reflexivity].
Qed.

Lemma live_rerender (p : props) (v : view) :
  Spec.live_intervals v -> Spec.live_intervals (rerender p v).
Proof.
  intros H. unfold rerender.
  destruct (mounted v) eqn:Em; cbn [negb]; [| exact H].
  destruct (deps_changed (cur v) p); [| exact H].
  destruct (cleanup_refresh_shape v H Em) as (i & t1 & Hi & Hlt & Ht).
  destruct (cleanup_frame (refresh_cleanup v) v) as (C1 & C2 & C3 & C4 & C5).
  set (v1 := cleanup (refresh_cleanup v) v) in *.
  assert (Hn : next_id v1 = next_id v)
    by (subst v1; destruct (refresh_cleanup v); reflexivity).
  unfold Spec.live_intervals, refresh_effect.
  destruct (autoRefresh p) eqn:Ep; [destruct (onRefresh p) as [h|] eqn:Eh |];
    cbn; rewrite ?C1, ?C3, ?Em, ?Ep, ?Eh, ?Ht, ?Hn; exists i, t1;
    (split; [exact Hi|]); auto.
  exists (next_id v). eexists. repeat split; [exact Hlt | lia].
Qed.

Lemma live_unmount (v : view) :
  Spec.consistent v -> Spec.live_intervals (unmount v).
Proof.
  intros Hc. destruct (unmount_released Hc) as [[Hm Ht] _].
  unfold Spec.live_intervals. rewrite Hm. exact Ht.
Qed.

Lemma live_perform (v : view) (a : action) :
  Spec.consistent v -> Spec.live_intervals v -> Spec.live_intervals (perform v a).
Proof.
  intros Hc Hl. destruct a as [q | ms | |]; cbn [perform].
  - apply live_rerender, Hl.
  - unfold elapse. apply N.iter_invariant; [| exact Hl].
    intros x. apply live_tick.
  - apply live_click, Hl.
  - apply live_unmount, Hc.
Qed.

Lemma live_run (tr : list action) :
  forall v, Spec.consistent v -> Spec.live_intervals v ->
    Spec.live_intervals (run v tr).
Proof.
  unfold run. induction tr as [| a tr IH]; intros v Hc Hl; cbn [fold_left].
  - exact Hl.
  - apply IH; [apply consistent_perform, Hc | apply live_perform; assumption].
Qed.

(** X3. Intervals never pile up.  Whatever has happened to a view, while
    it is mounted it holds exactly its ticker interval and, exactly when
    [autoRefresh] and [onRefresh] are both given, one refresh interval
    that calls the [onRefresh] of the last render; once it is unmounted
    it holds none. *)
Theorem intervals_never_pile_up :
  forall (p : props) (t0 : N) (tr : list action),
    Spec.live_intervals (run (mount p t0) tr).
Proof.
  intros p t0 tr. apply live_run; [apply consistent_mount | apply live_mount].
Qed.

(** *** A refresh interval that is re-created before it falls due *)

Lemma quiet_tick (v : view) :
  (forall tm, In tm (timers v) -> cb tm <> TickerCb -> (now v + 1 < due tm)%N) ->
  Spec.refresh_ticks (log (tick v)) = Spec.refresh_ticks (log v)
  /\ (forall tm, In tm (timers (tick v)) -> cb tm <> TickerCb -> In tm (timers v)).
Proof.
  intros Hq. split.
  - unfold tick. rewrite fold_fire_tickers; [reflexivity|].
    intros tm Hin. apply filter_In in Hin. destruct Hin as [Hin Hd].
    apply N.eqb_eq in Hd.
    destruct (cb tm) eqn:Ec; [reflexivity | exfalso].
    assert (Hlt : (now v + 1 < due tm)%N) by (apply Hq; [exact Hin | congruence]).
    lia.
  - destruct (tick_frame v) as (H1 & _). rewrite H1.
    intros tm Hin Hc. apply in_map_iff in Hin. destruct Hin as [tm0 [E Hin0]].
    destruct (reschedule_same (now v + 1) tm0) as [_ Hcb].
    rewrite E in Hcb.
    assert (Hlt : (now v + 1 < due tm0)%N) by (apply Hq; [exact Hin0 | congruence]).
    unfold reschedule in E.
    destruct (N.eqb_spec (due tm0) (now v + 1)); [lia|].
    subst tm. exact Hin0.
Qed.

Lemma quiet_elapse (n : N) :
  forall v,
    (forall tm, In tm (timers v) -> cb tm <> TickerCb -> (now v + n < due tm)%N) ->
    Spec.refresh_ticks (log (elapse n v)) = Spec.refresh_ticks (log v)
    /\ now (elapse n v) = (now v + n)%N
    /\ (forall tm, In tm (timers (elapse n v)) -> cb tm <> TickerCb ->
          In tm (timers v)).
Proof.
  induction n as [| n IH] using N.peano_ind; intros v Hq.
  - cbn. rewrite N.add_0_r. auto.
  - unfold elapse in *. rewrite N.iter_succ.
    destruct (IH v) as (Hl & Hn & Ht).
    { intros tm Hin Hc. specialize (Hq tm Hin Hc). lia. }
    destruct (quiet_tick (N.iter n tick v)) as [Hl' Ht'].
    { intros tm Hin Hc. rewrite Hn.
      specialize (Hq tm (Ht tm Hin Hc) Hc). lia. }
    destruct (tick_clock (N.iter n tick v)) as [Hn' _].
    split; [congruence|]. split; [rewrite Hn', Hn; lia|].
    intros tm Hin Hc. apply Ht; [apply Ht'; assumption | exact Hc].
Qed.

Lemma elapse_frame (n : N) (v : view) :
  mounted (elapse n v) = mounted v /\ cur (elapse n v) = cur v.
Proof.
  unfold elapse.
  apply (N.iter_invariant n view tick
           (fun x => mounted x = mounted v /\ cur x = cur v)); [| auto].
  intros x [Hm Hc]. destruct (tick_frame x) as (_ & H2 & H3 & _).
  split; congruence.
Qed.

Lemma primed_mount (h : handler) (t0 : N) :
  Spec.primed (mount {| autoRefresh := true; onRefresh := Some h |} t0) h
  /\ Spec.refresh_ticks
       (log (mount {| autoRefresh := true; onRefresh := Some h |} t0)) = [].
Proof.
  split; [| reflexivity].
  split; [apply consistent_mount|]. split; [reflexivity|].
  split; [reflexivity|].
  cbn. intros tm [<- | [<- | []]] Hc; cbn in *; [congruence | lia].
Qed.

(** One pause shorter than 30 s, then a render with another handler. *)
Lemma primed_segment (v : view) (h h' : handler) (n : N) :
  Spec.primed v h -> (n < 30000)%N -> h' <> h ->
  let v' := rerender {| autoRefresh := true; onRefresh := Some h' |} (elapse n v) in
  Spec.primed v' h'
  /\ Spec.refresh_ticks (log v') = Spec.refresh_ticks (log v).
Proof.
  intros (Hc & Hm & Hcur & Hdue) Hn Hh.
  destruct (quiet_elapse n v) as (Hl & Hnow & Ht).
  { intros tm Hin Hcb. specialize (Hdue tm Hin Hcb). lia. }
  destruct (elapse_frame n v) as [Hm1 Hc1].
  pose proof (consistent_elapse n Hc) as Hcons.
  set (v1 := elapse n v) in *.
  set (p := {| autoRefresh := true; onRefresh := Some h' |}).
  pose proof (consistent_rerender p Hcons) as Hcons'.
  cbv zeta. unfold rerender in *. rewrite Hm1, Hm in *. cbn [negb] in *.
  assert (Hd : deps_changed (cur v1) p = true).
  { rewrite Hc1, Hcur. cbn. destruct (N.eqb_spec h h'); [congruence | reflexivity]. }
  rewrite Hd in *.
  destruct (cleanup_frame (refresh_cleanup v1) v1) as (C1 & C2 & C3 & C4 & C5).
  pose proof (cleanup_refresh_only_ticker (proj1 Hcons)) as Honly.
  set (v2 := cleanup (refresh_cleanup v1) v1) in *.
  assert (Hn2 : now v2 = now v1)
    by (subst v2; destruct (refresh_cleanup v1); reflexivity).
  split; [split; [exact Hcons' | split; [| split]] |].
  - cbn. rewrite C1. exact Hm1.
  - reflexivity.
  - cbn. intros tm Hin Hcb. apply in_app_or in Hin.
    destruct Hin as [Hin | [<- | []]].
    + elim Hcb. apply Honly, Hin.
    + cbn. lia.
  - cbn. rewrite C5. exact Hl.
Qed.

Lemma primed_run (segs : list (N * handler)) :
  forall v h, Spec.primed v h -> Spec.hurried h segs ->
    exists h', Spec.primed (run v (Spec.re_renders segs)) h'
    /\ Spec.refresh_ticks (log (run v (Spec.re_renders segs)))
       = Spec.refresh_ticks (log v).
Proof.
  induction segs as [| [n h1] segs IH]; intros v h Hp Hh.
  - exists h. split; [exact Hp | reflexivity].
  - destruct Hh as (Hn & Hne & Hrest).
    destruct (primed_segment (h':=h1) Hp Hn Hne) as [Hp' Hl'].
    destruct (IH _ h1 Hp' Hrest) as (h' & Hp'' & Hl'').
    exists h'. cbn [Spec.re_renders flat_map fst snd app] in *.
    unfold run in *. cbn [fold_left perform].
    split; [exact Hp'' | etransitivity; [exact Hl'' | exact Hl']].
Qed.

(** X4. A parent that hands the view another [onRefresh] function at
    every render, and renders again before each 30 s are over, never
    gets an automatic refresh: every such render clears the refresh
    interval and starts its 30 s anew. *)
Theorem refresh_starved_by_new_handlers :
  forall (t0 : N) (h0 : handler) (segs : list (N * handler)) (m : N),
    Spec.hurried h0 segs -> (m < 30000)%N ->
    Spec.refresh_ticks
      (log (run (mount {| autoRefresh := true; onRefresh := Some h0 |} t0)
                (Spec.re_renders segs ++ [Elapse m])))
    = [].
Proof.
  intros t0 h0 segs m Hh Hm.
  destruct (primed_mount h0 t0) as [Hp H0].
  destruct (primed_run segs Hp Hh) as (h' & (Hc & Hmo & Hcur & Hdue) & Hl).
  unfold run in *. rewrite fold_left_app. cbn [fold_left perform].
  destruct (quiet_elapse m
              (fold_left perform (Spec.re_renders segs)
                 (mount {| autoRefresh := true; onRefresh := Some h0 |} t0)))
    as (Hq & _).
  { intros tm Hin Hcb. specialize (Hdue tm Hin Hcb). lia. }
  rewrite Hq, Hl. exact H0.
Qed.

Lemma refresh_starved_by_new_handlers_witness :
  Spec.refresh_ticks
    (log (run (mount {| autoRefresh := true; onRefresh := Some 1%N |} 0)
              (Spec.re_renders [(29000, 2); (29999, 3); (15000, 4)]%N
               ++ [Elapse 29999])))
  = [].
Proof.
  apply refresh_starved_by_new_handlers; [| reflexivity].
  cbn. repeat split; discriminate.
Defined.

(** *** The pace of an undisturbed view *)

Lemma div_succ_hit (c n : N) :
  (0 < c)%N -> (c * (n / c + 1) = n + 1)%N -> (N.succ n / c = n / c + 1)%N.
Proof.
  intros Hc E. symmetry. apply (N.div_unique (N.succ n) c (n / c + 1) 0); lia.
Qed.

Lemma div_succ_miss (c n : N) :
  (0 < c)%N -> (c * (n / c + 1) <> n + 1)%N -> (N.succ n / c = n / c)%N.
Proof.
  intros Hc E.
  pose proof (N.div_mod n c ltac:(lia)) as Hdm.
  pose proof (N.mod_lt n c ltac:(lia)) as Hlt.
  symmetry. apply (N.div_unique (N.succ n) c (n / c) (n mod c + 1)); lia.
Qed.

(** Quotients and remainders as opaque numbers for [lia]. *)
Ltac name_quotients :=
  repeat match goal with
    | |- context [(?a / ?b)%N] =>
        let q := fresh "q" in set (q := (a / b)%N) in *
    | |- context [(?a mod ?b)%N] =>
        let r := fresh "r" in set (r := (a mod b)%N) in *
    | H : context [(?a / ?b)%N] |- _ =>
        let q := fresh "q" in set (q := (a / b)%N) in *
    | H : context [(?a mod ?b)%N] |- _ =>
        let r := fresh "r" in set (r := (a mod b)%N) in *
    end.

Lemma staleness_bound (t0 n : N) :
  ((t0 + n + 1 - (t0 + 30000 * (n / 30000))) / 1000 <= 30)%N.
Proof.
  pose proof (N.div_mod n 30000 ltac:(lia)) as Hdm.
  pose proof (N.mod_lt n 30000 ltac:(lia)) as Hlt.
  replace (t0 + n + 1 - (t0 + 30000 * (n / 30000)))%N with (n mod 30000 + 1)%N
    by (name_quotients; lia).
  change 30%N with (30000 / 1000)%N. apply N.Div0.div_le_mono. lia.
Qed.

Lemma due_hit (c t0 n : N) :
  (0 < c)%N -> (t0 + c * (n / c + 1) = t0 + n + 1)%N ->
  (N.succ n / c = n / c + 1)%N.
Proof. intros Hc E. apply div_succ_hit; lia. Qed.

Lemma due_miss (c t0 n : N) :
  (0 < c)%N -> (t0 + c * (n / c + 1) <> t0 + n + 1)%N ->
  (N.succ n / c = n / c)%N.
Proof. intros Hc E. apply div_succ_miss; lia. Qed.

Lemma paced_eq (t0 : N) (h : handler) (m k : N) (l : list event)
      (nw d1 d2 lr : N) :
  nw = (t0 + m)%N ->
  d1 = (t0 + 1000 * (m / 1000 + 1))%N ->
  d2 = (t0 + 30000 * (m / 30000 + 1))%N ->
  lr = (t0 + 30000 * (m / 30000))%N ->
  {| now := nw; next_id := 3;
     timers := [Spec.ticker_timer 1 d1; Spec.refresh_timer 2 h d2];
     mounted := true;
     cur := {| autoRefresh := true; onRefresh := Some h |};
     ticker := k; lastRefreshRef := lr;
     ticker_cleanup := Some 1%N; refresh_cleanup := Some 2%N; log := l |}
  = Spec.paced t0 h m k l.
Proof. intros -> -> -> ->. reflexivity. Qed.

Lemma paced_tick (t0 : N) (h : handler) (n k : N) (l : list event) :
  (k <= 30)%N ->
  exists k' l',
    tick (Spec.paced t0 h n k l) = Spec.paced t0 h (N.succ n) k' l'
    /\ (k' <= 30)%N
    /\ List.length (Spec.refresh_ticks l')
       = (List.length (Spec.refresh_ticks l)
          + N.to_nat (N.succ n / 30000 - n / 30000))%nat
    /\ List.length (Spec.ticker_fires l')
       = (List.length (Spec.ticker_fires l)
          + N.to_nat (N.succ n / 1000 - n / 1000))%nat.
Proof.
  intros Hk. pose proof (staleness_bound t0 n) as Hs.
  unfold tick, Spec.paced, Spec.ticker_timer, Spec.refresh_timer, reschedule.
  cbn -[N.mul N.add N.div N.sub N.eqb].
  destruct (N.eqb_spec (t0 + 1000 * (n / 1000 + 1)) (t0 + n + 1)) as [E1 | E1];
    [pose proof (@due_hit 1000 t0 n eq_refl E1) as Q1
    | pose proof (@due_miss 1000 t0 n eq_refl E1) as Q1];
    (destruct (N.eqb_spec (t0 + 30000 * (n / 30000 + 1)) (t0 + n + 1)) as [E2 | E2];
     [pose proof (@due_hit 30000 t0 n eq_refl E2) as Q2
     | pose proof (@due_miss 30000 t0 n eq_refl E2) as Q2]);
    unfold fire, set_display, set_timers, set_now;
    cbn -[N.mul N.add N.div N.sub N.eqb];
    do 2 eexists;
    (split; [apply (@paced_eq t0 h (N.succ n));
             rewrite ?Q1, ?Q2; name_quotients; lia |]);
    rewrite Q1, Q2;
    unfold Spec.refresh_ticks, Spec.ticker_fires;
    rewrite ?filter_app, ?length_app; cbn -[N.mul N.add N.div N.sub N.eqb];
    repeat split; try assumption; name_quotients; lia.
Qed.

Lemma paced_elapse (t0 : N) (h : handler) (n : N) :
  exists k l,
    elapse n (mount {| autoRefresh := true; onRefresh := Some h |} t0)
    = Spec.paced t0 h n k l
    /\ (k <= 30)%N
    /\ List.length (Spec.refresh_ticks l) = N.to_nat (n / 30000)
    /\ List.length (Spec.ticker_fires l) = N.to_nat (n / 1000).
Proof.
  induction n as [| n IH] using N.peano_ind.
  - exists 0%N, []. split; [| repeat split; lia].
    unfold Spec.paced, mount. cbn. rewrite N.add_0_r. reflexivity.
  - destruct IH as (k & l & E & Hk & Hr & Ht).
    unfold elapse in *. rewrite N.iter_succ, E.
    destruct (paced_tick t0 h n l Hk) as (k' & l' & E' & Hk' & Hr' & Ht').
    exists k', l'. split; [exact E'|]. split; [exact Hk'|].
    pose proof (N.Div0.div_le_mono n (N.succ n) 30000 ltac:(lia)).
    pose proof (N.Div0.div_le_mono n (N.succ n) 1000 ltac:(lia)).
    split; lia.
Qed.

(** X5. A view mounted with auto-refresh on and then left alone keeps
    its pace: after [n] milliseconds [onRefresh] has been called exactly
    [n / 30000] times and the ticker has run exactly [n / 1000] times,
    the last refresh is stamped at the last multiple of 30 s, and the
    staleness on display has never passed 30 seconds. *)
Theorem undisturbed_pace :
  forall (t0 : N) (h : handler) (n : N),
    let v := elapse n (mount {| autoRefresh := true; onRefresh := Some h |} t0) in
    List.length (Spec.refresh_ticks (log v)) = N.to_nat (n / 30000)
    /\ List.length (Spec.ticker_fires (log v)) = N.to_nat (n / 1000)
    /\ lastRefreshRef v = (t0 + 30000 * (n / 30000))%N
    /\ (ticker v <= 30)%N.
Proof.
  intros t0 h n.
  destruct (paced_elapse t0 h n) as (k & l & E & Hk & Hr & Ht).
  cbv zeta. rewrite E. cbn [Spec.paced log lastRefreshRef ticker]. auto.
Qed.

End SchedulerMore.

(* ================================================================== *)
(** * Properties of the shipment wizard *)
(* ================================================================== *)

Module WizardProofs.
Import JS ShipmentForm ShipmentWizard.

Local Open Scope string_scope.
Local Open Scope list_scope.

(** *** What an empty error object tells *)

Lemma step1_passed (f : form) :
  validateStep 1 f = [] ->
  blank (origin_address f) = false
  /\ origin_latitude f <> EmptyString /\ origin_longitude f <> EmptyString.
Proof.
  unfold validateStep. cbn [Nat.eqb]. rewrite !app_nil_r.
  intros H. apply app_eq_nil in H. destruct H as [H1 H2].
  destruct (blank (origin_address f)); [discriminate|].
  split; [reflexivity|].
  destruct (String.eqb_spec (origin_latitude f) EmptyString) as [E | E];
    [rewrite E in H2; discriminate H2|].
  split; [exact E|].
  intros E2. rewrite E2 in H2. cbn in H2.
  rewrite orb_true_r in H2. discriminate.
Qed.

Lemma step2_passed (f : form) :
  validateStep 2 f = [] ->
  blank (destination_address f) = false
  /\ destination_latitude f <> EmptyString
  /\ destination_longitude f <> EmptyString
  /\ blank (recipient_name f) = false
  /\ blank (recipient_phone f) = false
  /\ phone_ok (recipient_phone f) = true.
Proof.
  unfold validateStep. cbn [Nat.eqb app]. rewrite !app_nil_r.
  intros H.
  apply app_eq_nil in H. destruct H as [H1 H].
  apply app_eq_nil in H. destruct H as [H2 H].
  apply app_eq_nil in H. destruct H as [H3 H4].
  destruct (blank (destination_address f)); [discriminate|].
  destruct (blank (recipient_name f)); [discriminate|].
  destruct (blank (recipient_phone f)); [discriminate|].
  destruct (phone_ok (recipient_phone f)); [| discriminate].
  repeat split.
  - intros E. rewrite E in H2. discriminate.
  - intros E. rewrite E in H2. cbn in H2. rewrite orb_true_r in H2. discriminate.
Qed.

Lemma step3_passed (f : form) :
  validateStep 3 f = [] ->
  weight_kg f <> EmptyString
  /\ isNaN (VStr (weight_kg f)) = false
  /\ (parseFloat (VStr (weight_kg f)) = NaN
      \/ Spec.weight_in_range (parseFloat (VStr (weight_kg f)))).
Proof.
  unfold validateStep. cbn [Nat.eqb app].
  destruct (negb (truthy (VStr (weight_kg f))) || isNaN (VStr (weight_kg f)))
    eqn:E1; [discriminate|].
  apply orb_false_elim in E1. destruct E1 as [Et En].
  destruct (nle (parseFloat (VStr (weight_kg f))) (int 0)) eqn:E2; [discriminate|].
  destruct (ngt (parseFloat (VStr (weight_kg f))) (int 10000)) eqn:E3;
    [discriminate|].
  intros _. split; [| split; [exact En|]].
  - intros E. rewrite E in Et. discriminate.
  - destruct (parseFloat (VStr (weight_kg f))) as [ | | | q];
      [left; reflexivity | discriminate | discriminate |].
    right. exists q. split; [reflexivity|].
    unfold int in E2, E3.
    rewrite PricingProofs.nle_fin in E2. rewrite PricingProofs.ngt_fin in E3.
    apply PricingProofs.Qle_bool_false in E2.
    apply negb_false_iff, Qle_bool_iff in E3. split; assumption.
Qed.

(** *** Each step checks its own fields only *)

Lemma validate1_kept (k : field) (v : string) (f : form) :
  Spec.field_step k <> 1%nat ->
  validateStep 1 (set_field k v f) = validateStep 1 f.
Proof. destruct k; cbn [Spec.field_step]; intros H; try reflexivity; contradiction. Qed.

Lemma validate2_kept (k : field) (v : string) (f : form) :
  Spec.field_step k <> 2%nat ->
  validateStep 2 (set_field k v f) = validateStep 2 f.
Proof. destruct k; cbn [Spec.field_step]; intros H; try reflexivity; contradiction. Qed.

Lemma ok_set (k : field) (v : string) (w : wizard) :
  Spec.wizard_ok w -> Spec.field_step k = step w -> Spec.wizard_ok (set k v w).
Proof.
  intros (Hs & H1 & H2) Hk. unfold Spec.wizard_ok. cbn [set step fields].
  split; [exact Hs|]. split; intros Hge.
  - rewrite validate1_kept by lia. auto.
  - rewrite validate2_kept by lia. auto.
Qed.

Lemma picker_fields (w : wizard) (klat klng : field) :
  picker w = Some (klat, klng) ->
  Spec.field_step klat = step w /\ Spec.field_step klng = step w.
Proof.
  unfold picker.
  destruct (Nat.eqb_spec (step w) 1) as [E | E];
    [intros [= <- <-]; cbn; auto|].
  destruct (Nat.eqb_spec (step w) 2) as [E2 | E2];
    [intros [= <- <-]; cbn; auto | discriminate].
Qed.

Lemma ok_onPick (lat lng : string) (w : wizard) :
  Spec.wizard_ok w -> Spec.wizard_ok (onPick lat lng w).
Proof.
  intros Hw. unfold onPick.
  destruct (picker w) as [[klat klng]|] eqn:Ep; [| exact Hw].
  destruct (picker_fields w Ep) as [Ha Hb].
  apply ok_set; [apply ok_set; assumption | exact Hb].
Qed.

Lemma typed_on_step (k : field) (w : wizard) :
  Spec.wizard_ok w -> typed_on k = step w -> Spec.field_step k = step w.
Proof.
  intros (Hs & _) H. destruct k; cbn in *; try exact H; lia.
Qed.

Lemma ok_goNext (w : wizard) :
  Spec.wizard_ok w -> (step w < 3)%nat -> Spec.wizard_ok (goNext w).
Proof.
  intros (Hs & H1 & H2) Hlt. unfold goNext.
  destruct (validateStep (step w) (fields w)) eqn:Ev;
    unfold Spec.wizard_ok; cbn [step fields]; [| auto].
  split; [lia|].
  assert (Hc : step w = 1%nat \/ step w = 2%nat) by lia.
  destruct Hc as [E | E]; rewrite E in *; split; intros Hge;
    try lia; auto.
Qed.

Lemma ok_goBack (w : wizard) :
  Spec.wizard_ok w -> step w <> 1%nat -> Spec.wizard_ok (goBack w).
Proof.
  intros (Hs & H1 & H2) Hne. unfold goBack, Spec.wizard_ok. cbn [step fields].
  split; [lia|]. split; intros Hge; [apply H1; lia | lia].
Qed.

Lemma handleSubmit_frame (w : wizard) :
  step (handleSubmit w) = step w /\ fields (handleSubmit w) = fields w.
Proof. unfold handleSubmit. destruct (validateStep 3 (fields w)); auto. Qed.

Lemma ok_handle (w : wizard) (e : event) :
  Spec.wizard_ok w -> Spec.wizard_ok (handle w e).
Proof.
  intros Hw. destruct e as [k v | v | v | | | |]; cbn [handle].
  - destruct (Nat.eqb_spec (typed_on k) (step w)) as [E | E]; [| exact Hw].
    apply ok_set; [exact Hw | apply typed_on_step; assumption].
  - destruct (picker w) as [[klat klng]|]; [apply ok_onPick, Hw | exact Hw].
  - destruct (picker w) as [[klat klng]|]; [apply ok_onPick, Hw | exact Hw].
  - destruct (ready w); [apply ok_onPick, Hw | exact Hw].
  - destruct (Nat.ltb_spec (step w) 3); [apply ok_goNext; assumption | exact Hw].
  - destruct (Nat.eqb_spec (step w) 1); [exact Hw | apply ok_goBack; assumption].
  - destruct (step w <? 3)%nat; [exact Hw|].
    destruct (handleSubmit_frame w) as [Es Ef].
    unfold Spec.wizard_ok. rewrite Es, Ef. exact Hw.
Qed.

(** No event but a submission touches what was sent. *)
Lemma sent_handle (w : wizard) (e : event) :
  Spec.wizard_ok w -> Forall Spec.checked (sent w) ->
  Forall Spec.checked (sent (handle w e)).
Proof.
  intros (Hs & H1 & H2) Hf.
  destruct e as [k v | v | v | | | |]; cbn [handle].
  - destruct (typed_on k =? step w)%nat; exact Hf.
  - unfold onPick. destruct (picker w) as [[klat klng]|]; exact Hf.
  - unfold onPick. destruct (picker w) as [[klat klng]|]; exact Hf.
  - unfold onPick. destruct (ready w); [| exact Hf].
    destruct (picker w) as [[klat klng]|]; exact Hf.
  - destruct (step w <? 3)%nat; [| exact Hf].
    unfold goNext. destruct (validateStep (step w) (fields w)); exact Hf.
  - destruct (step w =? 1)%nat; exact Hf.
  - destruct (Nat.ltb_spec (step w) 3) as [Hlt | Hge]; [exact Hf|].
    unfold handleSubmit.
    destruct (validateStep 3 (fields w)) eqn:E3; cbn [sent]; [| exact Hf].
    apply Forall_app. split; [exact Hf|].
    constructor; [| constructor].
    unfold Spec.checked. cbn [data weight].
    repeat split; [apply H1; lia | apply H2; lia | exact E3].
Qed.

Lemma play_ok (es : list event) :
  forall w, Spec.wizard_ok w -> Forall Spec.checked (sent w) ->
    Spec.wizard_ok (play w es) /\ Forall Spec.checked (sent (play w es)).
Proof.
  unfold play. induction es as [| e es IH]; intros w Hw Hf; cbn [fold_left].
  - auto.
  - apply IH; [apply ok_handle, Hw | apply sent_handle; assumption].
Qed.

Lemma start_ok : Spec.wizard_ok start /\ Forall Spec.checked (sent start).
Proof.
  split; [| constructor].
  unfold Spec.wizard_ok, start. cbn. repeat split; lia.
Qed.

(** X6. The wizard never leaves its three steps: whatever the user
    does, [step] is 1, 2 or 3, so the heading [TITLES[step - 1]] always
    exists; and a step is only ever reached with the steps before it
    valid. *)
Theorem wizard_stays_on_its_steps :
  forall es : list event,
    let w := play start es in
    (1 <= step w <= 3)%nat
    /\ ((2 <= step w)%nat -> validateStep 1 (fields w) = [])
    /\ ((3 <= step w)%nat -> validateStep 2 (fields w) = []).
Proof.
  intros es. destruct start_ok as [H0 Hf].
  exact (proj1 (play_ok es H0 Hf)).
Qed.

(** X7. [onSubmit] only ever receives a completely checked form, though
    [handleSubmit] itself validates step 3 alone: both addresses and the
    recipient name are not blank, all four coordinate texts are not
    empty, the phone matches the pattern, the weight text is not empty,
    and the weight sent is [parseFloat] of it: NaN (for a text of white
    space only) or a number above 0 and at most 10000. *)
Theorem only_checked_forms_are_sent :
  forall (es : list event) (p : payload),
    In p (sent (play start es)) ->
    let f := data p in
    blank (origin_address f) = false
    /\ origin_latitude f <> EmptyString /\ origin_longitude f <> EmptyString
    /\ blank (destination_address f) = false
    /\ destination_latitude f <> EmptyString
    /\ destination_longitude f <> EmptyString
    /\ blank (recipient_name f) = false
    /\ phone_ok (recipient_phone f) = true
    /\ weight_kg f <> EmptyString
    /\ weight p = parseFloat (VStr (weight_kg f))
    /\ (weight p = NaN \/ Spec.weight_in_range (weight p)).
Proof.
  intros es p Hin. destruct start_ok as [H0 Hf].
  destruct (play_ok es H0 Hf) as [_ Hall].
  rewrite Forall_forall in Hall. destruct (Hall p Hin) as (V1 & V2 & V3 & Hw).
  destruct (step1_passed _ V1) as (A1 & A2 & A3).
  destruct (step2_passed _ V2) as (B1 & B2 & B3 & B4 & B5 & B6).
  destruct (step3_passed _ V3) as (C1 & C2 & C3).
  cbv zeta. rewrite Hw. repeat split; assumption.
Qed.

Lemma only_checked_forms_are_sent_witness :
  In {| data := Samples.filled; weight := Fin (11 # 2); volume := VNull |}
     (sent (play start Samples.filling))
  /\ phone_ok (recipient_phone Samples.filled) = true.
Proof.
  assert (Hin : In {| data := Samples.filled; weight := Fin (11 # 2); volume := VNull |}
                   (sent (play start Samples.filling)))
    by (vm_compute; left; reflexivity).
  split; [exact Hin|].
  apply (only_checked_forms_are_sent Samples.filling _ Hin).
Defined.

Lemma wizard_stays_on_its_steps_witness :
  validateStep 2 (fields (play start Samples.filling)) = [].
Proof.
  apply (proj2 (proj2 (wizard_stays_on_its_steps Samples.filling))).
  vm_compute. lia.
Defined.

(** *** The picker and the errors *)

Lemma ready_step (w : wizard) :
  ready w = true -> step w = 1%nat \/ step w = 2%nat.
Proof.
  unfold ready, picker.
  destruct (Nat.eqb_spec (step w) 1); [auto|].
  destruct (Nat.eqb_spec (step w) 2); [auto | discriminate].
Qed.

Lemma goNext_refused (w : wizard) (kv : string * string) :
  In kv (validateStep (step w) (fields w)) ->
  step (goNext w) = step w
  /\ errors (goNext w) = validateStep (step w) (fields w).
Proof.
  unfold goNext. destruct (validateStep (step w) (fields w)); [intros [] | auto].
Qed.

Lemma step1_needs_latitude (f : form) :
  origin_latitude f = EmptyString ->
  In ("origin_coords", "Select a pickup location on the map") (validateStep 1 f).
Proof.
  intros E. unfold validateStep. cbn [Nat.eqb].
  apply in_or_app. left. apply in_or_app. right.
  rewrite E. left. reflexivity.
Qed.

Lemma step2_needs_latitude (f : form) :
  destination_latitude f = EmptyString ->
  In ("destination_coords", "Select a delivery location on the map")
     (validateStep 2 f).
Proof.
  intros E. unfold validateStep. cbn [Nat.eqb app].
  apply in_or_app. left. apply in_or_app. right. apply in_or_app. left.
  rewrite E. left. reflexivity.
Qed.

(** X8. "Clear pin" takes the step back to unfinished: both previews
    vanish at once, and "Next" then stays on the step and reports the
    missing location. *)
Theorem clear_pin_blocks_the_step :
  forall w : wizard,
    ready w = true ->
    let w' := handle w Clear_pin in
    distKm (fields w') = VNull
    /\ costKsh (fields w') = VNull
    /\ step (handle w' Next) = step w
    /\ exists msg, In (Spec.coords_key (step w), msg) (errors (handle w' Next)).
Proof.
  intros [st f er sn] Hr. pose proof (ready_step _ Hr) as Hst.
  cbn [step] in Hst. cbn [handle]. rewrite Hr. clear Hr.
  unfold onPick, picker. cbn [step].
  destruct Hst as [-> | ->]; cbn [Nat.eqb set step fields errors sent Nat.ltb Nat.leb].
  - set (f' := set_field Origin_longitude EmptyString
                 (set_field Origin_latitude EmptyString f)).
    assert (Hd : distKm f' = VNull)
      by (apply PreviewProofs.distKm_unset; left; reflexivity).
    split; [exact Hd|].
    split; [apply PreviewProofs.costKsh_unset; left; exact Hd|].
    match goal with
    | |- context [goNext ?x] =>
        destruct (@goNext_refused x _ (step1_needs_latitude f' eq_refl)) as [Es Ee]
    end.
    split; [exact Es|]. eexists. rewrite Ee. cbn [step fields].
    apply (step1_needs_latitude f' eq_refl).
  - set (f' := set_field Destination_longitude EmptyString
                 (set_field Destination_latitude EmptyString f)).
    assert (Hd : distKm f' = VNull)
      by (apply PreviewProofs.distKm_unset; right; reflexivity).
    split; [exact Hd|].
    split; [apply PreviewProofs.costKsh_unset; left; exact Hd|].
    match goal with
    | |- context [goNext ?x] =>
        destruct (@goNext_refused x _ (step2_needs_latitude f' eq_refl)) as [Es Ee]
    end.
    split; [exact Es|]. eexists. rewrite Ee. cbn [step fields].
    apply (step2_needs_latitude f' eq_refl).
Qed.

Lemma clear_pin_blocks_the_step_witness :
  step (handle (handle (play start
                          [Pick_lat "-1.2864"; Pick_lng "36.8172"])
                       Clear_pin) Next) = 1%nat.
Proof.
  apply (clear_pin_blocks_the_step
           (play start [Pick_lat "-1.2864"; Pick_lng "36.8172"])).
  reflexivity.
Defined.

Lemma errors_after_onPick (lat lng key msg : string) (w : wizard) :
  key = "origin_coords" \/ key = "destination_coords" ->
  In (key, msg) (errors w) -> In (key, msg) (errors (onPick lat lng w)).
Proof.
  intros Hk Hin. unfold onPick, picker.
  destruct (step w =? 1)%nat; [| destruct (step w =? 2)%nat];
    cbn [set errors]; unfold delete_key; rewrite ?filter_In;
    try exact Hin;
    destruct Hk as [-> | ->]; cbn; auto.
Qed.

(** X9. Typing in a text field removes the error shown for that field,
    but neither typing nor working the map picker ever removes the
    "select a location" error: it is filed under [origin_coords] or
    [destination_coords], keys that [set] is never called with. *)
Theorem coords_error_outlives_picking :
  forall (w : wizard) (key msg : string),
    key = "origin_coords" \/ key = "destination_coords" ->
    In (key, msg) (errors w) ->
    (forall v, In (key, msg) (errors (handle w (Pick_lat v))))
    /\ (forall v, In (key, msg) (errors (handle w (Pick_lng v))))
    /\ In (key, msg) (errors (handle w Clear_pin))
    /\ (forall k v, In (key, msg) (errors (handle w (Type_in k v))))
    /\ (forall k v m, typed_on k = step w ->
          ~ In (field_key k, m) (errors (handle w (Type_in k v)))).
Proof.
  intros w key msg Hk Hin.
  split; [| split; [| split; [| split]]].
  - intros v. cbn [handle].
    destruct (picker w) as [[klat klng]|]; [| exact Hin].
    apply errors_after_onPick; assumption.
  - intros v. cbn [handle].
    destruct (picker w) as [[klat klng]|]; [| exact Hin].
    apply errors_after_onPick; assumption.
  - cbn [handle]. destruct (ready w); [| exact Hin].
    apply errors_after_onPick; assumption.
  - intros k v. cbn [handle].
    destruct (typed_on k =? step w)%nat; [| exact Hin].
    cbn [set errors]. unfold delete_key. rewrite filter_In.
    split; [exact Hin|].
    destruct Hk as [-> | ->]; destruct k; reflexivity.
  - intros k v m Ht. cbn [handle]. rewrite Ht, Nat.eqb_refl.
    cbn [set errors]. unfold delete_key. rewrite filter_In.
    intros [_ H]. cbn [fst] in H. rewrite String.eqb_refl in H. discriminate.
Qed.

Lemma coords_error_in_force :
  In ("origin_coords", "Select a pickup location on the map")
     (errors (play start [Next])).
Proof. vm_compute. right. left. reflexivity. Qed.

Lemma coords_error_outlives_picking_witness :
  In ("origin_coords", "Select a pickup location on the map")
     (errors (handle (play start [Next]) (Pick_lat "-1.2864"))).
Proof.
  apply (proj1 (@coords_error_outlives_picking (play start [Next])
                  "origin_coords" "Select a pickup location on the map"
                  (or_introl eq_refl) coords_error_in_force)).
Defined.

(** X10. The progress dots always show where the user is: in every state
    the wizard can reach exactly one dot is the active one, it carries
    the number of the current step, every dot before it is a finished
    one with the check mark and a coloured bar, and every dot after it
    is still to come. *)
Theorem dots_follow_the_wizard :
  forall es : list event,
    let n := step (play start es) in
    map look (StepDots n)
    = repeat Green (n - 1) ++ Blue :: repeat Gray (3 - n)
    /\ map number (StepDots n)
       = repeat None (n - 1) ++ map Some (seq n (4 - n))
    /\ map bar (StepDots n)
       = firstn 2 (repeat (Some true) (n - 1) ++ repeat (Some false) 3)
         ++ [None].
Proof.
  intros es. destruct start_ok as [H0 Hf].
  destruct (play_ok es H0 Hf) as [(Hs & _) _]. cbv zeta.
  assert (E : step (play start es) = 1%nat \/ step (play start es) = 2%nat
              \/ step (play start es) = 3%nat) by lia.
  destruct E as [-> | [-> | ->]]; repeat split; reflexivity.
Qed.

End WizardProofs.

(* ================================================================== *)
(** * Printing a distance and reading it back *)
(* ================================================================== *)

Module FormatProofs.
Import JS ShipmentForm.

Local Open Scope Z_scope.

Import Spec.

(** Evaluate the codes of the literal characters in the goal. *)
Ltac char_codes :=
  repeat match goal with
    | |- context [Z.of_nat (nat_of_ascii ?c)] =>
        let v := eval vm_compute in (Z.of_nat (nat_of_ascii c)) in
        change (Z.of_nat (nat_of_ascii c)) with v
    end.

Lemma printed_acc (d : Decimal.uint) :
  forall acc : positive,
    fold_left (fun a c => 10 * a + digit_val c) (printed d) (Zpos acc)
    = Zpos (Pos.of_uint_acc d acc).
Proof.
  unfold printed. induction d; intros acc;
    cbn [NilEmpty.string_of_uint list_ascii_of_string fold_left Pos.of_uint_acc];
    [reflexivity | ..];
    rewrite <- IHd; f_equal; unfold digit_val; char_codes; lia.
Qed.

Lemma printed_value (d : Decimal.uint) :
  digits_val (printed d) = Z.of_N (Pos.of_uint d).
Proof.
  unfold digits_val, printed.
  induction d;
    cbn [NilEmpty.string_of_uint list_ascii_of_string fold_left Pos.of_uint];
    [reflexivity | exact IHd | ..];
    cbn [Z.of_N]; rewrite <- printed_acc; reflexivity.
Qed.

Lemma printed_digits (d : Decimal.uint) : forallb is_digit (printed d) = true.
Proof.
  unfold printed.
  induction d; cbn [NilEmpty.string_of_uint list_ascii_of_string forallb];
    [reflexivity | ..]; rewrite IHd; reflexivity.
Qed.

(** A whole number prints to a non-empty run of digits of its value. *)
Lemma decimal_of_Z_printed (n : Z) :
  0 <= n ->
  exists c ds,
    list_ascii_of_string (decimal_of_Z n) = c :: ds
    /\ forallb is_digit (c :: ds) = true
    /\ digits_val (c :: ds) = n.
Proof.
  intros Hn. unfold decimal_of_Z, NilZero.string_of_uint.
  pose proof (DecimalN.Unsigned.of_to (Z.to_N n)) as Hof.
  unfold N.of_uint in Hof.
  pose proof (printed_value (N.to_uint (Z.to_N n))) as Hv.
  pose proof (printed_digits (N.to_uint (Z.to_N n))) as Hd.
  rewrite Hof, Z2N.id in Hv by exact Hn.
  destruct (N.to_uint (Z.to_N n)) eqn:E;
    [ exists "0"%char, []; cbn in *; auto
    | cbn [NilEmpty.string_of_uint list_ascii_of_string] in *; eauto .. ].
Qed.

Lemma digit_head (c : ascii) (r : list ascii) :
  is_digit c = true ->
  skip_spaces (c :: r) = c :: r
  /\ read_sign (c :: r) = (false, c :: r)
  /\ starts_with (list_ascii_of_string "Infinity") (c :: r) = false
  /\ Ascii.eqb c "." = false.
Proof.
  destruct c as [[] [] [] [] [] [] [] []]; intros H; try discriminate H;
    repeat split.
Qed.

Lemma span_all_digits (ds rest : list ascii) :
  forallb is_digit ds = true ->
  match rest with
  | [] => True
  | c :: _ => is_digit c = false
  end ->
  span_digits (ds ++ rest) = (ds, rest).
Proof.
  intros Hd Hr. induction ds as [| c ds IH]; cbn [app span_digits].
  - destruct rest as [| c r]; [reflexivity|]. cbn [span_digits]. rewrite Hr.
    reflexivity.
  - cbn [forallb] in Hd. apply andb_prop in Hd. destruct Hd as [Hc Hds].
    rewrite Hc, (IH Hds). reflexivity.
Qed.

Lemma list_of_append (a b : string) :
  list_ascii_of_string (a ++ b)
  = (list_ascii_of_string a ++ list_ascii_of_string b)%list.
Proof.
  induction a as [| c a IH]; cbn [append list_ascii_of_string app];
    [reflexivity | rewrite IH; reflexivity].
Qed.

Lemma single_digit (k : Z) :
  0 <= k <= 9 ->
  exists c, list_ascii_of_string (decimal_of_Z k) = [c]
            /\ is_digit c = true /\ digit_val c = k.
Proof.
  intros Hk.
  assert (Hc : k = 0 \/ k = 1 \/ k = 2 \/ k = 3 \/ k = 4 \/ k = 5 \/ k = 6
               \/ k = 7 \/ k = 8 \/ k = 9) by lia.
  destruct Hc as [-> | [-> | [-> | [-> | [-> | [-> | [-> | [-> | [-> | ->]]]]]]]]];
    eexists; vm_compute; repeat split.
Qed.

(** The text of [n] hundredths: digits, a point, two digits. *)
Lemma hundredths_printed (n : Z) :
  0 <= n ->
  exists c ip t u,
    list_ascii_of_string (hundredths n) = ((c :: ip) ++ "."%char :: [t; u])%list
    /\ forallb is_digit (c :: ip) = true
    /\ is_digit t = true /\ is_digit u = true
    /\ digits_val ((c :: ip) ++ [t; u]) = n.
Proof.
  intros Hn. unfold hundredths.
  assert (H100 : 0 <= n / 100) by (apply Z.div_pos; lia).
  assert (H10 : 0 <= (n mod 100) / 10 <= 9).
  { pose proof (Z.mod_pos_bound n 100 ltac:(lia)).
    split; [apply Z.div_pos; lia |].
    assert ((n mod 100) / 10 < 10) by (apply Z.div_lt_upper_bound; lia). lia. }
  assert (H1 : 0 <= n mod 10 <= 9)
    by (pose proof (Z.mod_pos_bound n 10 ltac:(lia)); lia).
  destruct (decimal_of_Z_printed H100) as (c & ip & Ei & Hi & Vi).
  destruct (single_digit H10) as (t & Et & Ht & Vt).
  destruct (single_digit H1) as (u & Eu & Hu & Vu).
  exists c, ip, t, u.
  rewrite !list_of_append, Ei, Et, Eu.
  split; [reflexivity|]. split; [exact Hi|]. split; [exact Ht|].
  split; [exact Hu|].
  unfold digits_val in *. rewrite fold_left_app, Vi. cbn [fold_left].
  rewrite Vt, Vu.
  clear. Z.div_mod_to_equations. lia.
Qed.

(** Reading a printed number of hundredths, with or without a minus. *)
Lemma parse_printed (s : string) (neg : bool) (c t u : ascii) (ip : list ascii) :
  list_ascii_of_string s
  = ((if neg then ["-"%char] else []) ++ (c :: ip) ++ "."%char :: [t; u])%list ->
  forallb is_digit (c :: ip) = true ->
  is_digit t = true -> is_digit u = true ->
  parse_number s
  = Fin (scale10 (if neg then - digits_val ((c :: ip) ++ [t; u])
                  else digits_val ((c :: ip) ++ [t; u])) (-2)).
Proof.
  intros Es Hi Ht Hu. unfold parse_number. rewrite Es.
  assert (Hc : is_digit c = true)
    by (cbn [forallb] in Hi; apply andb_prop in Hi; tauto).
  destruct (digit_head c (ip ++ "."%char :: [t; u]) Hc) as (Hs & Hr & Hinf & _).
  assert (Hsign :
    read_sign (skip_spaces ((if neg then ["-"%char] else [])
                            ++ (c :: ip) ++ "."%char :: [t; u]))
    = (neg, (c :: ip) ++ "."%char :: [t; u])).
  { destruct neg; cbn [app].
    - reflexivity.
    - cbn [app] in Hs, Hr. rewrite Hs. exact Hr. }
  rewrite Hsign. cbv beta iota.
  cbn [app] in Hinf |- *. rewrite Hinf.
  change (c :: ip ++ "."%char :: [t; u]) with ((c :: ip) ++ "."%char :: [t; u]).
  rewrite (span_all_digits (c :: ip) ("."%char :: [t; u]) Hi eq_refl).
  cbv beta iota.
  assert (Hf : span_digits [t; u] = ([t; u], []))
    by (cbn [span_digits]; rewrite Ht, Hu; reflexivity).
  rewrite Hf. cbn [app List.length read_exponent].
  destruct neg; reflexivity.
Qed.

Lemma scale10_hundredths (m : Z) : scale10 m (-2) = Qred (m # 100).
Proof. reflexivity. Qed.

Lemma Int_part_half_nonneg (x : R) : (0 <= x)%R -> 0 <= Int_part (x * 100 + / 2).
Proof.
  intros Hx. destruct (base_Int_part (x * 100 + / 2)) as [_ Hb].
  assert (H : (-1 < IZR (Int_part (x * 100 + / 2)))%R) by lra.
  apply lt_IZR in H. lia.
Qed.

(** The text of a number that is not negative has no minus sign. *)
Lemma hundredths_unsigned (n : Z) :
  0 <= n -> Binary64.minus_sign (hundredths n) = false.
Proof.
  intros Hn.
  destruct (hundredths_printed Hn) as (c & ip & t & u & Es & Hi & _).
  unfold Binary64.minus_sign. rewrite Es.
  assert (Hc : is_digit c = true)
    by (cbn [forallb] in Hi; apply andb_prop in Hi; tauto).
  destruct (digit_head c (ip ++ "."%char :: [t; u]) Hc) as (Hs & Hr & _).
  cbn [app] in *. rewrite Hs, Hr. reflexivity.
Qed.

(** Rounding a rational that is not negative never gives the negative
    zero. *)
Lemma of_Q_zero_sign (q : Q) (s : bool) :
  0 <= Qnum q -> Binary64.of_Q q = S754_zero s -> s = false.
Proof.
  unfold Binary64.of_Q. destruct (Qnum q) as [| n | n]; intros Hq.
  - intros [= <-]. reflexivity.
  - unfold Binary64.fdiv, SFdiv.
    destruct (SFdiv_core_binary Binary64.prec Binary64.emax (Z.pos n) 0
                (Z.pos (Qden q)) 0) as [[mz ez] lz].
    unfold binary_round_aux.
    destruct (shr_fexp Binary64.prec Binary64.emax mz ez lz) as [mrs e1].
    destruct (shr_fexp Binary64.prec Binary64.emax
                (round_nearest_even (shr_m mrs) (loc_of_shr_record mrs)) e1
                loc_Exact) as [mrs2 e2].
    destruct (shr_m mrs2); [intros [= <-]; reflexivity | | discriminate].
    destruct (e2 <=? Binary64.emax - Binary64.prec); discriminate.
  - lia.
Qed.

Lemma Qred_hundredths_nonneg (n : Z) : 0 <= n -> 0 <= Qnum (Qred (n # 100)).
Proof.
  intros Hn. pose proof (Qred_correct (n # 100)) as E.
  unfold Qeq in E. cbn [Qnum Qden] in E.
  destruct (Qred (n # 100)) as [a b]. cbn [Qnum Qden] in *. nia.
Qed.

(** X13. The distance text and what is read back from it.  For a
    distance [r >= 0] below [1e21], where [toFixed] prints plain digits,
    the text [r.toFixed(2)] is the decimal [n / 100] for the whole
    number [n] of hundredths nearest to [r] (ties upwards), which is
    within half a hundredth of [r]; and [parseFloat] reads the text back
    as the binary64 number nearest to that decimal. *)
Theorem distance_text_reads_back :
  forall r : R,
    (0 <= r)%R -> (r < 1000000000000000000000)%R ->
    exists q : Q,
      q = Qred (Int_part (r * 100 + / 2) # 100)
      /\ parse_number (toFixed2 (Fin r)) = Fin q
      /\ Binary64.parseFloat (Binary64.VStr (toFixed2 (Fin r))) = Binary64.of_Q q
      /\ (Rabs (Q2R q - r) <= / 200)%R.
Proof.
  intros r Hr _. eexists. split; [reflexivity|].
  pose proof (Int_part_half_nonneg Hr) as Hn.
  set (n := Int_part (r * 100 + / 2)) in *.
  assert (Et : toFixed2 (Fin r) = hundredths n).
  { cbn [toFixed2]. unfold Rcmp.
    destruct (total_order_T r 0) as [[H | H] | H]; [lra | reflexivity | reflexivity]. }
  assert (Hp : parse_number (hundredths n) = Fin (Qred (n # 100))).
  { destruct (hundredths_printed Hn) as (c & ip & t & u & Es & Hi & Ht & Hu & Hv).
    rewrite (@parse_printed _ false c t u ip Es Hi Ht Hu), Hv.
    apply f_equal, scale10_hundredths. }
  rewrite Et. split; [exact Hp|]. split.
  - cbn [Binary64.parseFloat]. unfold Binary64.parse_number.
    rewrite Hp, (hundredths_unsigned Hn). cbn [Binary64.of_num].
    destruct (Binary64.of_Q (Qred (n # 100))) as [s | s | | s m e] eqn:E;
      try reflexivity.
    rewrite (of_Q_zero_sign (Qred (n # 100)) (Qred_hundredths_nonneg Hn) E).
    reflexivity.
  - rewrite (Qreals.Qeq_eqR _ _ (Qred_correct (n # 100))).
    unfold Q2R. cbn [Qnum Qden].
    destruct (base_Int_part (r * 100 + / 2)) as [Hl Hu]. fold n in Hl, Hu.
    apply Rabs_le. change (IZR (Z.pos 100)) with 100%R. lra.
Qed.

Lemma distance_text_reads_back_witness :
  exists q : Q,
    q = Qred (Int_part (12.345 * 100 + / 2)%R # 100)
    /\ parse_number (toFixed2 (Fin 12.345%R)) = Fin q
    /\ Binary64.parseFloat (Binary64.VStr (toFixed2 (Fin 12.345%R)))
       = Binary64.of_Q q
    /\ (Rabs (Q2R q - 12.345) <= / 200)%R.
Proof.
  apply (@distance_text_reads_back 12.345%R); lra.
Defined.

End FormatProofs.
